(** * Authentication and authorization core of the video-sharing backend

    A shallow embedding of the Express handlers of the repository
    (account, video and comment controllers, the access guard, the
    terminal error responder and the token helper) together with the
    properties the specification states about them.

    Conventions of the embedding.
    - JavaScript values that travel through cookies, request bodies and
      stored documents are the type [JSValue]; [undefined] is a value of
      its own, a missing property is a failed map lookup.
    - A stored document is a finite map from field names to values; a
      collection is a finite map from document ids to documents.  The
      update operators keep their document-store meaning ([$set] overwrites
      the listed fields, [$addToSet] appends a value that is not yet in the
      array, [$pull] removes every occurrence).  The object-document mapper
      that sits between the handlers and the store (schema casting, id
      casting, validation hooks) is not part of the sources and is not
      modelled: an id that names no document finds nothing.
    - A handler is a state transformer over the database that ends in one
      [Outcome]: it wrote the response itself, or it called [next]. *)

From Stdlib Require Import ZArith Ascii String DecimalString DecimalZ.
From stdpp Require Import gmap strings list fin_maps.

Local Open Scope Z_scope.
Local Open Scope string_scope.

(** ** JavaScript values *)

#[local] Set Warnings "-register-all".

Inductive JSValue : Type :=
| VUndefined
| VNull
| VBool (b : bool)
| VNum (n : Z)
| VStr (s : string)
| VArr (items : list JSValue)
| VObj (fields : list (string * JSValue)).

Fixpoint JSValue_eq_dec (x y : JSValue) {struct x} : {x = y} + {x <> y}.
Proof.
  unshelve refine (
    let fix items_dec (l1 l2 : list JSValue) {struct l1} : {l1 = l2} + {l1 <> l2} :=
      match l1, l2 with
      | [], [] => left eq_refl
      | a :: l1', b :: l2' =>
          match JSValue_eq_dec a b, items_dec l1' l2' with
          | left e1, left e2 => left _
          | right n, _ => right _
          | _, right n => right _
          end
      | _, _ => right _
      end in
    let fix fields_dec (l1 l2 : list (string * JSValue)) {struct l1}
      : {l1 = l2} + {l1 <> l2} :=
      match l1, l2 with
      | [], [] => left eq_refl
      | (k1, a) :: l1', (k2, b) :: l2' =>
          match String.string_dec k1 k2, JSValue_eq_dec a b, fields_dec l1' l2' with
          | left e1, left e2, left e3 => left _
          | right n, _, _ => right _
          | _, right n, _ => right _
          | _, _, right n => right _
          end
      | _, _ => right _
      end in
    match x, y with
    | VUndefined, VUndefined => left eq_refl
    | VNull, VNull => left eq_refl
    | VBool a, VBool b => match bool_dec a b with left e => left _ | right n => right _ end
    | VNum a, VNum b => match Z.eq_dec a b with left e => left _ | right n => right _ end
    | VStr a, VStr b => match String.string_dec a b with left e => left _ | right n => right _ end
    | VArr a, VArr b => match items_dec a b with left e => left _ | right n => right _ end
    | VObj a, VObj b => match fields_dec a b with left e => left _ | right n => right _ end
    | _, _ => right _
    end); congruence.
Defined.

#[global] Instance JSValue_eq_decision : EqDecision JSValue := JSValue_eq_dec.

(** [!v] is [negb (truthy v)]. Numbers are integers here, so the only
    falsy number is zero. *)
Definition truthy (v : JSValue) : bool :=
  match v with
  | VUndefined | VNull => false
  | VBool b => b
  | VNum n => negb (n =? 0)%Z
  | VStr s => negb (String.eqb s "")
  | VArr _ | VObj _ => true
  end.

(** [typeof v === 'string'] *)
Definition is_string (v : JSValue) : bool :=
  match v with VStr _ => true | _ => false end.

(** Decimal rendering of an integer, as [String(n)] prints it. *)
Definition decimal (n : Z) : string := NilEmpty.string_of_int (Z.to_int n).

Fixpoint join (sep : string) (l : list string) : string :=
  match l with
  | [] => ""
  | [s] => s
  | s :: rest => s ++ sep ++ join sep rest
  end.

(** [String(v)] *)
Fixpoint js_String (v : JSValue) : string :=
  match v with
  | VUndefined => "undefined"
  | VNull => "null"
  | VBool true => "true"
  | VBool false => "false"
  | VNum n => decimal n
  | VStr s => s
  | VArr items =>
      join "," (map (fun e => match e with
                              | VUndefined | VNull => ""
                              | _ => js_String e
                              end) items)
  | VObj _ => "[object Object]"
  end.

(** A property of a document or of the request: [undefined] when missing. *)
Definition prop (o : gmap string JSValue) (k : string) : JSValue :=
  default VUndefined (o !! k).

(** An optional string as the JavaScript value it is. *)
Definition js_of (o : option string) : JSValue :=
  match o with Some s => VStr s | None => VUndefined end.

(** ** Errors and the terminal responder *)

Record Error := mkError {
  err_name : string;
  err_message : string;
  err_status : option Z;
  err_code : option Z
}.

(** [new CustomError(message, status)] *)
Definition CustomError (message : string) (status : Z) : Error :=
  mkError "CustomError" message (Some status) None.

(** Errors raised by the runtime and by the store carry no [status]. *)
Definition TypeError (message : string) : Error :=
  mkError "TypeError" message None None.

Definition MongoServerError (message : string) : Error :=
  mkError "MongoServerError" message None (Some 2).

Inductive Body :=
| BMessage (success : bool) (message : string)
| BData (success : bool) (data : option (gmap string JSValue))
| BText (success : bool) (data : string)
| BToken (success : bool) (access_token : string) (id first_name : string).

Inductive CookieAction :=
| SetCookie (name value : string) (httpOnly secure : bool) (expires : option Z)
| ClearCookie (name : string).

Record Response := mkResponse {
  res_status : Z;
  res_cookies : list CookieAction;
  res_body : Body
}.

Definition json (status : Z) (b : Body) : Response := mkResponse status [] b.

(** [customError.status || 500] *)
Definition status_or_500 (s : option Z) : Z :=
  match s with
  | Some n => if (n =? 0)%Z then 500 else n
  | None => 500
  end.

Definition customErrorHandler (err : Error) : Response :=
  let customError :=
    if String.eqb (err_name err) "SyntaxError" then
      CustomError "Unexpected Syntax" 400
    else if String.eqb (err_name err) "ValidationError" then
      CustomError (err_message err) 400
    else if bool_decide (err_code err = Some 11000) then
      CustomError "Duplicate Key Found: Check Your Input" 400
    else err in
  json (status_or_500 (err_status customError))
       (BMessage false (err_message customError)).

(** ** Configuration and [parseInt] *)

(** The entries of [process.env] the core reads. *)
Record Env := mkEnv {
  JWT_SECRET_KEY : string;
  JWT_EXPIRE : string;
  JWT_COOKIE_EXPIRE : string;
  NODE_ENV : string
}.

Definition is_ws (c : ascii) : bool :=
  let n := nat_of_ascii c in
  bool_decide (n = 32%nat) || (bool_decide (9 <= n)%nat && bool_decide (n <= 13)%nat).

Fixpoint skip_ws (s : string) : string :=
  match s with
  | String c rest => if is_ws c then skip_ws rest else s
  | EmptyString => s
  end.

Definition digit_of (c : ascii) : option Z :=
  let n := Z.of_nat (nat_of_ascii c) in
  if (48 <=? n)%Z && (n <=? 57)%Z then Some (n - 48)%Z
  else if (97 <=? n)%Z && (n <=? 102)%Z then Some (n - 87)%Z
  else if (65 <=? n)%Z && (n <=? 70)%Z then Some (n - 55)%Z
  else None.

Fixpoint parse_digits (radix : Z) (s : string) (acc : option Z) : option Z :=
  match s with
  | EmptyString => acc
  | String c rest =>
      match digit_of c with
      | Some d =>
          if (d <? radix)%Z
          then parse_digits radix rest (Some (default 0%Z acc * radix + d)%Z)
          else acc
      | None => acc
      end
  end.

(** [parseInt(s)]; [None] is [NaN]. *)
Definition parseInt (s : string) : option Z :=
  let s1 := skip_ws s in
  let '(neg, s2) :=
    match s1 with
    | String "-" r => (true, r)
    | String "+" r => (false, r)
    | _ => (false, s1)
    end in
  let '(radix, s3) :=
    match s2 with
    | String "0" (String "x" r) => (16%Z, r)
    | String "0" (String "X" r) => (16%Z, r)
    | _ => (10%Z, s2)
    end in
  (fun n => if neg : bool then (- n)%Z else n) <$> parse_digits radix s3 None.

(** ** Session token codec *)

(** The identity a token carries, and what the guard attaches to the
    request as [req.account]. *)
Record IdentityClaim := mkClaim {
  claim_id : string;
  claim_first_name : string
}.

(** The decoded token: [{id, first_name, iat, exp}]. *)
Record Payload := mkPayload {
  payload_id : string;
  payload_first_name : string;
  payload_iat : Z;
  payload_exp : Z
}.

(** Modelled from the spec: the token is an opaque string (section 4.2)
    and its real layout belongs to the signing library, which is not part
    of the sources.  In the model every field is framed by its length in
    unary, so that the text splits back in one way only. *)
Fixpoint ones (n : nat) : string :=
  match n with
  | O => EmptyString
  | S k => String "1" (ones k)
  end.

Definition frame (s : string) : string :=
  ones (String.length s) ++ String "0" s.

Fixpoint count_ones (s : string) : nat * string :=
  match s with
  | String "1" rest => let '(n, t) := count_ones rest in (S n, t)
  | _ => (O, s)
  end.

Fixpoint split_at (n : nat) (s : string) : option (string * string) :=
  match n with
  | O => Some (EmptyString, s)
  | S k =>
      match s with
      | String c rest =>
          match split_at k rest with
          | Some (a, b) => Some (String c a, b)
          | None => None
          end
      | EmptyString => None
      end
  end.

Definition unframe (s : string) : option (string * string) :=
  let '(n, t) := count_ones s in
  match t with
  | String "0" rest => split_at n rest
  | _ => None
  end.

Definition undecimal (s : string) : option Z :=
  Z.of_int <$> NilEmpty.int_of_string s.

Definition encode_payload (p : Payload) : string :=
  frame (payload_id p) ++ frame (payload_first_name p)
  ++ frame (decimal (payload_iat p)) ++ frame (decimal (payload_exp p)).

Definition decode_token (t : string) : option (Payload * string) :=
  match unframe t with
  | Some (i, t1) =>
      match unframe t1 with
      | Some (f, t2) =>
          match unframe t2 with
          | Some (a, t3) =>
              match unframe t3 with
              | Some (e, signature) =>
                  match undecimal a, undecimal e with
                  | Some iat, Some exp => Some (mkPayload i f iat exp, signature)
                  | _, _ => None
                  end
              | None => None
              end
          | None => None
          end
      | None => None
      end
  | None => None
  end.

(** The two failures of token verification. *)
Definition TokenInvalid (message : string) : Error :=
  mkError "JsonWebTokenError" message None None.

Definition TokenExpired : Error :=
  mkError "TokenExpiredError" "jwt expired" None None.

Module jwt.

(** Modelled from the spec: the signing library is not part of the
    sources.  Section 4.2 of the specification: [issue(claim, secret_key,
    ttl)] binds the claim and the expiry [now + ttl] under a symmetric MAC
    of the key and returns an opaque string; [parse(token, secret_key)]
    fails with [TokenInvalid] when the signature does not match and with
    [TokenExpired] when the current time is at or past the embedded expiry.
    The MAC itself is a parameter; times are in seconds. *)
Definition sign (mac : string -> string -> string)
    (claim : IdentityClaim) (secret_key : string) (expiresIn : Z) (now : Z)
  : string :=
  let p := mkPayload (claim_id claim) (claim_first_name claim) now (now + expiresIn)%Z in
  encode_payload p ++ mac secret_key (encode_payload p).

(** Modelled from the spec: [parse(token, secret_key)] of section 4.2, the
    signature check first and the expiry check second. *)
Definition verify (mac : string -> string -> string)
    (token : string) (secret_key : string) (now : Z) : Error + Payload :=
  match decode_token token with
  | None => inl (TokenInvalid "jwt malformed")
  | Some (p, signature) =>
      if String.eqb signature (mac secret_key (encode_payload p))
      then if (payload_exp p <=? now)%Z then inl TokenExpired else inr p
      else inl (TokenInvalid "invalid signature")
  end.

End jwt.

(** ** Requests, outcomes and the database *)

Record Request := mkRequest {
  req_cookies : gmap string JSValue;
  req_params : gmap string string;
  req_body : gmap string JSValue;
  req_account : option IdentityClaim
}.

Definition set_account (req : Request) (c : IdentityClaim) : Request :=
  mkRequest (req_cookies req) (req_params req) (req_body req) (Some c).

(** How a handler ends: it wrote the response, or it called [next]
    ([Next None] is the plain [next()]). *)
Inductive Outcome :=
| Respond (r : Response)
| Next (e : option Error).

(** [Date.now()] is in milliseconds, token times are in seconds. *)
Definition seconds (now_ms : Z) : Z := (now_ms / 1000)%Z.

Module JWTLib.

(** [_sendToken(account, res)]: [inl] is the exception the signing call
    raises when [parseInt(JWT_EXPIRE)] is not a number. *)
Definition _sendToken (mac : string -> string -> string) (env : Env) (now_ms : Z)
    (account : IdentityClaim) : Error + Response :=
  let payload := mkClaim (claim_id account) (claim_first_name account) in
  match parseInt (JWT_EXPIRE env) with
  | None => inl (mkError "Error" "expiresIn should be a number of seconds" None None)
  | Some expiresIn =>
      let token := jwt.sign mac payload (JWT_SECRET_KEY env) expiresIn (seconds now_ms) in
      inr (mkResponse 200
             [SetCookie "access_token" token true
                (negb (String.eqb (NODE_ENV env) "development"))
                ((fun e => (now_ms + e)%Z) <$> parseInt (JWT_COOKIE_EXPIRE env))]
             (BToken true token (claim_id account) (claim_first_name account)))
  end.

End JWTLib.

(** The access guard.  It returns the request as the next middleware sees
    it together with the way the guard ended. *)
Definition hasAccess (mac : string -> string -> string) (env : Env) (now_ms : Z)
    (req : Request) : Request * Outcome :=
  let token := prop (req_cookies req) "access_token" in
  if negb (truthy token) then
    (req, Next (Some (CustomError "Please provide a token or authenticate." 401)))
  else
    match token with
    | VStr t =>
        match jwt.verify mac t (JWT_SECRET_KEY env) (seconds now_ms) with
        | inl err => (req, Next (Some err))
        | inr result =>
            (set_account req (mkClaim (payload_id result) (payload_first_name result)),
             Next None)
        end
    | _ => (req, Next (Some (CustomError "Invalid token format." 400)))
    end.

(** ** The document store *)

Abbreviation Doc := (gmap string JSValue).
Abbreviation Collection := (gmap string (gmap string JSValue)).

(** The three models of the application. *)
Inductive Model := Account | Video | Comment.

Inductive Update :=
| USet (body : Doc)
| UAddToSet (field : string) (v : JSValue)
| UPull (field : string) (v : JSValue).

Inductive DbOp :=
| OFindById (m : Model) (id : option string)
| OFindByIdAndUpdate (m : Model) (id : option string) (u : Update)
| OFindByIdAndDelete (m : Model) (id : option string)
| OSave (m : Model).

Record DB := mkDB {
  accounts : Collection;
  videos : Collection;
  comments : Collection;
  oplog : list DbOp
}.

Definition coll (m : Model) (db : DB) : Collection :=
  match m with
  | Account => accounts db
  | Video => videos db
  | Comment => comments db
  end.

Definition set_coll (m : Model) (c : Collection) (db : DB) : DB :=
  match m with
  | Account => mkDB c (videos db) (comments db) (oplog db)
  | Video => mkDB (accounts db) c (comments db) (oplog db)
  | Comment => mkDB (accounts db) (videos db) c (oplog db)
  end.

Definition log (op : DbOp) (db : DB) : DB :=
  mkDB (accounts db) (videos db) (comments db) (oplog db ++ [op]).

(** One update operator applied to one document.  [$addToSet] and [$pull]
    on a field that holds something other than an array are refused by the
    store. *)
Definition apply_update (u : Update) (d : Doc) : Error + Doc :=
  match u with
  | USet body => inr (body ∪ d)
  | UAddToSet field v =>
      match d !! field with
      | None => inr (<[field := VArr [v]]> d)
      | Some (VArr items) =>
          if decide (v ∈ items) then inr d
          else inr (<[field := VArr (items ++ [v])]> d)
      | Some _ => inl (MongoServerError "Cannot apply $addToSet to non-array field.")
      end
  | UPull field v =>
      match d !! field with
      | None => inr d
      | Some (VArr items) =>
          inr (<[field := VArr (filter (fun x => x <> v) items)]> d)
      | Some _ => inl (MongoServerError "Cannot apply $pull to a non-array value")
      end
  end.

(** Handlers run in a state-and-exception monad over the database; what was
    written before an exception stays written. *)
Definition M (A : Type) : Type := DB -> (Error + A) * DB.

#[global] Instance M_ret : MRet M := fun A a db => (inr a, db).

#[global] Instance M_bind : MBind M := fun A B f m db =>
  match m db with
  | (inr a, db') => f a db'
  | (inl e, db') => (inl e, db')
  end.

Definition throw {A : Type} (e : Error) : M A := fun db => (inl e, db).

Definition lookup_id (m : Model) (id : option string) (db : DB) : option Doc :=
  match id with
  | Some i => coll m db !! i
  | None => None
  end.

Definition findById (m : Model) (id : option string) : M (option Doc) :=
  fun db => (inr (lookup_id m id db), log (OFindById m id) db).

(** [findByIdAndUpdate(id, update, {new})]: the document after the update
    when [new] is set, the document as it was otherwise, [None] when no
    document has that id. *)
Definition findByIdAndUpdate (m : Model) (id : option string) (u : Update)
    (new : bool) : M (option Doc) :=
  fun db =>
    let db1 := log (OFindByIdAndUpdate m id u) db in
    match id with
    | Some i =>
        match coll m db !! i with
        | Some d =>
            match apply_update u d with
            | inr d' =>
                (inr (Some (if new then d' else d)), set_coll m (<[i := d']> (coll m db)) db1)
            | inl e => (inl e, db1)
            end
        | None => (inr None, db1)
        end
    | None => (inr None, db1)
    end.

Definition findByIdAndDelete (m : Model) (id : option string) : M (option Doc) :=
  fun db =>
    let db1 := log (OFindByIdAndDelete m id) db in
    match id with
    | Some i => (inr (coll m db !! i), set_coll m (delete i (coll m db)) db1)
    | None => (inr None, db1)
    end.

(** [doc?.save()] on a document that was not touched since it was read:
    nothing is written. *)
Definition save (m : Model) (doc : option Doc) : M unit :=
  fun db =>
    match doc with
    | Some _ => (inr tt, log (OSave m) db)
    | None => (inr tt, db)
    end.

(** [v.toString()]: a [TypeError] on [undefined] and [null]. *)
Definition toString (v : JSValue) : M string :=
  match v with
  | VUndefined | VNull => throw (TypeError "Cannot read properties of undefined")
  | _ => mret (js_String v)
  end.

Definition next (e : Error) : M Outcome := mret (Next (Some e)).

Definition respond (r : Response) : M Outcome := mret (Respond r).

(** [try { ... } catch (err) { return next(err) }] *)
Definition try_catch (m : M Outcome) (db : DB) : Outcome * DB :=
  match m db with
  | (inr o, db') => (o, db')
  | (inl e, db') => (Next (Some e), db')
  end.

(** [req.account?.id] *)
Definition auth_id (req : Request) : option string :=
  claim_id <$> req_account req.

(** ** Account controllers *)

Definition updateAccountInformations (req : Request) : DB -> Outcome * DB :=
  try_catch (
    let authAccountId := auth_id req in
    let updateAccountId := req_params req !! "accountId" in
    if negb (truthy (js_of updateAccountId)) then
      next (CustomError "Please provide an account id." 400)
    else if decide (authAccountId <> updateAccountId) then
      next (CustomError "You cannot update this channel" 500)
    else
      updatedAccount ← findByIdAndUpdate Account updateAccountId (USet (req_body req)) true;
      _ ← save Account updatedAccount;
      respond (json 200 (BData true updatedAccount))).

Definition subscribeAccount (req : Request) : DB -> Outcome * DB :=
  try_catch (
    let authAccountId := auth_id req in
    let subscribeAccountId := req_params req !! "accountId" in
    if decide (authAccountId <> subscribeAccountId) then
      _ ← findByIdAndUpdate Account authAccountId
            (UAddToSet "subscribedUsers" (js_of subscribeAccountId)) false;
      _ ← findByIdAndUpdate Account subscribeAccountId
            (UAddToSet "subscribers" (js_of authAccountId)) false;
      respond (json 200 (BMessage true
        ("You have been subscribed to " ++ js_String (js_of subscribeAccountId) ++ ".")))
    else
      next (CustomError "You cannot subscribe to yourself." 400)).

Definition unsubscribeAccount (req : Request) : DB -> Outcome * DB :=
  try_catch (
    let authAccountId := auth_id req in
    let unsubscribeAccountId := req_params req !! "accountId" in
    if decide (authAccountId <> unsubscribeAccountId) then
      _ ← findByIdAndUpdate Account authAccountId
            (UPull "subscribedUsers" (js_of unsubscribeAccountId)) false;
      _ ← findByIdAndUpdate Account unsubscribeAccountId
            (UPull "subscribers" (js_of authAccountId)) false;
      respond (json 200 (BMessage true
        ("You have been unsubscribed from " ++ js_String (js_of unsubscribeAccountId) ++ ".")))
    else
      next (CustomError "You cannot unsubscribe to yourself." 400)).

Definition deleteSingleAccount (req : Request) : DB -> Outcome * DB :=
  try_catch (
    let authAccountId := auth_id req in
    let deleteAccountId := req_params req !! "accountId" in
    if negb (truthy (js_of deleteAccountId)) then
      next (CustomError "Please provide a channel id." 400)
    else if decide (authAccountId <> deleteAccountId) then
      next (CustomError "You cannot delete this channel." 500)
    else
      _ ← findByIdAndDelete Account deleteAccountId;
      respond (mkResponse 200 [ClearCookie "access_token"]
                 (BMessage true "Your channel has been deleted successfully."))).

(** ** Video and comment controllers *)

(** [mongoose.Types.ObjectId.isValid] belongs to the mapper library; the
    controllers take it as a parameter. *)
Section Controllers.

Variable isValid : string -> bool.

(** [isValid(id)] on a route parameter; a missing parameter is not valid. *)
Definition valid_param (id : option string) : bool :=
  match id with
  | Some s => isValid s
  | None => false
  end.

Definition updateSingleVideo (req : Request) : DB -> Outcome * DB :=
  try_catch (
    let videoId := req_params req !! "videoId" in
    if negb (truthy (js_of videoId)) then
      next (CustomError "Please provide a video id." 400)
    else if negb (valid_param videoId) then
      next (CustomError "Please provide a verified id." 400)
    else
      video ← findById Video videoId;
      match video with
      | None => next (CustomError "The video you are looking for could not be found." 404)
      | Some video =>
          let auth_account_id := auth_id req in
          video_account_id ← toString (prop video "account_id");
          if decide (auth_account_id = Some video_account_id) then
            updatedVideo ← findByIdAndUpdate Video videoId (USet (req_body req)) true;
            respond (json 200 (BData true updatedVideo))
          else
            next (CustomError "You can update only your account" 400)
      end).

Definition deleteSingleVideo (req : Request) : DB -> Outcome * DB :=
  try_catch (
    let videoId := req_params req !! "videoId" in
    if negb (truthy (js_of videoId)) then
      next (CustomError "Please provide a video id." 400)
    else if negb (valid_param videoId) then
      next (CustomError "Please provide a verified id." 400)
    else
      video ← findById Video videoId;
      match video with
      | None => next (CustomError "The video you are looking for could not be found." 404)
      | Some video =>
          let auth_account_id := auth_id req in
          video_account_id ← toString (prop video "account_id");
          if decide (auth_account_id = Some video_account_id) then
            _ ← findByIdAndDelete Video videoId;
            respond (json 200 (BText true "Your video has been deleted."))
          else
            next (CustomError "You can delete only your video" 400)
      end).

Definition deleteComment (req : Request) : DB -> Outcome * DB :=
  try_catch (
    let auth_account_id := auth_id req in
    let commentId := req_params req !! "commentId" in
    if negb (truthy (js_of commentId)) then
      next (CustomError "Please provide a comment id." 400)
    else if negb (valid_param commentId) then
      next (CustomError "Please provide a verified comment id." 400)
    else
      let comment_id := commentId in
      comment ← findById Comment comment_id;
      match comment with
      | None => respond (json 200 (BMessage true "Comment couldn't be find."))
      | Some comment =>
          if String.eqb (js_String (prop comment "account_id"))
                        (js_String (js_of auth_account_id)) then
            _ ← findByIdAndDelete Comment comment_id;
            respond (json 200 (BMessage true "Your comment has been deleted."))
          else
            respond (json 400 (BMessage false "You cannot delete this comment."))
      end).

End Controllers.

(** ** Routing *)

(** A middleware sees the request and the database, may replace the request
    (the guard attaches the identity) and ends in an outcome. *)
Definition Middleware : Type := Request -> DB -> Request * Outcome * DB.

Definition guard (mac : string -> string -> string) (env : Env) (now_ms : Z)
  : Middleware :=
  fun req db => (hasAccess mac env now_ms req, db).

Definition handler (h : Request -> DB -> Outcome * DB) : Middleware :=
  fun req db => let '(o, db') := h req db in (req, o, db').

(** The chain of one route followed by the terminal responder, which is
    registered last with [server.use(customErrorHandler)].  The result is
    the list of responses written for the request. *)
Fixpoint dispatch (chain : list Middleware) (req : Request) (db : DB)
  : list Response * DB :=
  match chain with
  | [] => ([], db)
  | m :: rest =>
      match m req db with
      | (_, Respond r, db') => ([r], db')
      | (req', Next None, db') => dispatch rest req' db'
      | (_, Next (Some e), db') => ([customErrorHandler e], db')
      end
  end.

(** The guarded routes of the account, video and comment routers. *)
Inductive Route :=
| PutAccount         (* PUT /api/account/:accountId *)
| DeleteAccount      (* DELETE /api/account/:accountId *)
| PutSub             (* PUT /api/account/sub/:accountId *)
| PutUnsub           (* PUT /api/account/unsub/:accountId *)
| PutVideo           (* PUT /api/video/:videoId *)
| DeleteVideo        (* DELETE /api/video/:videoId *)
| DeleteCommentRoute (* DELETE /api/video/:videoId/comments/:commentId *).

#[global] Instance Route_eq_decision : EqDecision Route.
Proof. solve_decision. Defined.

Definition controller (isValid : string -> bool) (r : Route)
  : Request -> DB -> Outcome * DB :=
  match r with
  | PutAccount => updateAccountInformations
  | DeleteAccount => deleteSingleAccount
  | PutSub => subscribeAccount
  | PutUnsub => unsubscribeAccount
  | PutVideo => updateSingleVideo isValid
  | DeleteVideo => deleteSingleVideo isValid
  | DeleteCommentRoute => deleteComment isValid
  end.

Definition route (mac : string -> string -> string) (isValid : string -> bool)
    (env : Env) (now_ms : Z) (r : Route) : list Middleware :=
  [guard mac env now_ms; handler (controller isValid r)].

(** ** The subscription relation read off the store *)

(** The array a field holds; a missing field or a field that is not an
    array has no members. *)
Definition members (d : Doc) (field : string) : list JSValue :=
  match d !! field with
  | Some (VArr items) => items
  | _ => []
  end.

(** [x] is in the array [field] of the stored document [id]. *)
Definition member_of (accs : Collection) (id field : string) (x : JSValue) : Prop :=
  exists d, accs !! id = Some d /\ x ∈ members d field.

(** [B ∈ A.subscribed_to] *)
Definition subscribed_to (accs : Collection) (A B : string) : Prop :=
  member_of accs A "subscribedUsers" (VStr B).

(** [A ∈ B.subscribers] *)
Definition subscriber_of (accs : Collection) (B A : string) : Prop :=
  member_of accs B "subscribers" (VStr A).

Definition symmetric (accs : Collection) : Prop :=
  forall A B : string, A <> B -> (subscribed_to accs A B <-> subscriber_of accs B A).

(** The relationship fields of a document are absent or arrays. *)
Definition array_or_absent (d : Doc) (field : string) : Prop :=
  match d !! field with
  | None | Some (VArr _) => True
  | Some _ => False
  end.


(** What one [findByIdAndUpdate] does to the collection. *)
Definition update_in (accs : Collection) (id : string) (u : Update)
  : Error + Collection :=
  match accs !! id with
  | Some d =>
      match apply_update u d with
      | inr d' => inr (<[id := d']> accs)
      | inl e => inl e
      end
  | None => inr accs
  end.

(** The two writes of subscribe and unsubscribe, one after the other: the
    error that stopped them, if any, and the collection they leave. *)
Definition two_updates (accs : Collection) (A : string) (u1 : Update)
    (B : string) (u2 : Update) : option Error * Collection :=
  match update_in accs A u1 with
  | inl e => (Some e, accs)
  | inr accs1 =>
      match update_in accs1 B u2 with
      | inl e => (Some e, accs1)
      | inr accs2 => (None, accs2)
      end
  end.

Definition subscribed_message (B : string) : Response :=
  json 200 (BMessage true ("You have been subscribed to " ++ B ++ ".")).


(** ** What the client receives *)

(** The response a request ends with when the handler is the last
    middleware of its route: its own, or the terminal responder's. *)
Definition reply (o : Outcome) : option Response :=
  match o with
  | Respond r => Some r
  | Next (Some e) => Some (customErrorHandler e)
  | Next None => None
  end.

Definition body_success (b : Body) : bool :=
  match b with
  | BMessage s _ | BData s _ | BText s _ | BToken s _ _ _ => s
  end.

(** A failure response: a 4xx or 5xx status with [success: false]. *)
Definition is_failure (r : Response) : bool :=
  (400 <=? res_status r)%Z && negb (body_success (res_body r)).

(** An id the controllers accept as well formed. *)
Definition well_formed (isValid : string -> bool) (id : string) : Prop :=
  id <> "" /\ isValid id = true.

(** ** How a controller can end *)

(** [ends_with P m]: whenever [m] returns an outcome, the outcome
    satisfies [P]. *)
Definition ends_with (P : Outcome -> Prop) (m : M Outcome) : Prop :=
  forall db, match m db with
             | (inr o, _) => P o
             | (inl _, _) => True
             end.

(** The controller forwarded an error with [next(err)], or wrote a 200
    response with [success: true]. *)
Definition forwards_or_succeeds (o : Outcome) : Prop :=
  match o with
  | Respond r => res_status r = 200%Z /\ body_success (res_body r) = true
  | Next (Some _) => True
  | Next None => False
  end.

(** The endings of [deleteComment]: as above, or the refusal it writes
    itself. *)
Definition deleteComment_ending (o : Outcome) : Prop :=
  match o with
  | Respond r =>
      (res_status r = 200%Z /\ body_success (res_body r) = true)
      \/ r = json 400 (BMessage false "You cannot delete this comment.")
  | Next (Some _) => True
  | Next None => False
  end.

(** ** Sample instances of the library parameters *)

Definition sample_mac (key text : string) : string := key ++ text.

Definition is_hex (c : ascii) : bool :=
  match digit_of c with Some _ => true | None => false end.

Fixpoint all_hex (s : string) : bool :=
  match s with
  | EmptyString => true
  | String c rest => is_hex c && all_hex rest
  end.

(** Twenty-four hexadecimal digits. *)
Definition hex24 (s : string) : bool :=
  bool_decide (String.length s = 24%nat) && all_hex s.

(** ** Sample data *)

Definition id_a : string := "aaaaaaaaaaaaaaaaaaaaaaaa".
Definition id_b : string := "bbbbbbbbbbbbbbbbbbbbbbbb".
Definition id_c : string := "cccccccccccccccccccccccc".

Definition sample_env : Env := mkEnv "secret" "36000" "36000000" "development".

Definition empty_db : DB := mkDB ∅ ∅ ∅ [].

(** An account as registration leaves it, reduced to its name. *)
Definition fresh_account (name : string) : Doc := {["first_name" := VStr name]}.

(** A store with the single account [id_a]. *)
Definition one_account_db : DB := mkDB {[id_a := fresh_account "Ana"]} ∅ ∅ [].

(** A store with the accounts [id_a] and [id_b]. *)
Definition two_accounts_db : DB :=
  mkDB {[id_a := fresh_account "Ana"; id_b := fresh_account "Bea"]} ∅ ∅ [].

(** A video and a comment, both owned by [id_a]. *)
Definition sample_video : Doc :=
  {["account_id" := VStr id_a; "title" := VStr "intro"]}.

Definition sample_comment : Doc :=
  {["account_id" := VStr id_a; "description" := VStr "first"]}.

Definition media_db : DB :=
  mkDB {[id_a := fresh_account "Ana"]}
       {[id_c := sample_video]} {[id_c := sample_comment]} [].

(** A request of the authenticated actor carrying one route parameter. *)
Definition request_of (actor param value : string) (body : Doc) : Request :=
  mkRequest ∅ {[param := value]} body (Some (mkClaim actor "Ana")).

(** A request of [id_b] that names the account [id_a] and the video and
    comment [id_c]. *)
Definition bea_request : Request :=
  mkRequest ∅ {["accountId" := id_a; "videoId" := id_c; "commentId" := id_c]} ∅
            (Some (mkClaim id_b "Bea")).




(** ** Read-only controllers *)


Definition getSingleVideo (isValid : string -> bool) (req : Request)
  : DB -> Outcome * DB :=
  try_catch (
    let videoId := req_params req !! "videoId" in
    if negb (truthy (js_of videoId)) then
      next (CustomError "Please provide a video id" 400)
    else if negb (valid_param isValid videoId) then
      next (CustomError "Please provide a verified ID" 404)
    else
      let video_id := videoId in
      video ← findById Video video_id;
      match video with
      | None => next (CustomError "The video you are looking for could not be found." 404)
      | Some video => respond (json 200 (BData true (Some video)))
      end).

(** A handler that answers with an array of documents ends in a
    [ListOutcome]: [{success, data: [...]}] with a status, or [next]. *)
Inductive ListOutcome :=
| RespondList (status : Z) (success : bool) (data : list Doc)
| NextList (e : option Error).

(** [Model.find({field: value})]: the stored documents whose [field] is
    [value], in the order the store yields them.  A query is a read; the
    operation log lists the by-id operations and is left as it is. *)
Definition find (m : Model) (field : string) (value : JSValue) : M (list Doc) :=
  fun db =>
    (inr (filter (fun d => prop d field = value) (map_to_list (coll m db)).*2), db).

Definition try_catch_list (m : M ListOutcome) (db : DB) : ListOutcome * DB :=
  match m db with
  | (inr o, db') => (o, db')
  | (inl e, db') => (NextList (Some e), db')
  end.


(** [getComments]; the branch for [!comments] is never taken, an array
    being truthy. *)
Definition getComments (isValid : string -> bool) (req : Request)
  : DB -> ListOutcome * DB :=
  try_catch_list (
    let videoId := req_params req !! "videoId" in
    if negb (truthy (js_of videoId)) then
      mret (NextList (Some (CustomError "Please provide a video id" 400)))
    else if negb (valid_param isValid videoId) then
      mret (NextList (Some (CustomError "Please provide a verified video id" 400)))
    else
      comments ← find Comment "video_id" (js_of videoId);
      mret (RespondList 200 true comments)).

(** ** Token helpers for the [Authorization] header *)

(** [s.split(sep)] for a separator of one character. *)
Fixpoint split (sep : ascii) (s : string) : list string :=
  match s with
  | EmptyString => [EmptyString]
  | String c rest =>
      if Ascii.eqb c sep then EmptyString :: split sep rest
      else match split sep rest with
           | piece :: pieces => String c piece :: pieces
           | [] => [String c EmptyString]
           end
  end.

Fixpoint has_char (c : ascii) (s : string) : bool :=
  match s with
  | EmptyString => false
  | String x rest => Ascii.eqb x c || has_char c rest
  end.

Module JWTLibHeader.

(** [isTokenIncluded(req)], on [req.headers.authorization]. *)
Definition isTokenIncluded (authorization : option string) : bool :=
  match authorization with
  | Some a => String.prefix "Bearer:" a
  | None => false
  end.

(** [_getAccessTokenFromHeader(req)], on [req.headers.authorization];
    [None] is [undefined]. *)
Definition _getAccessTokenFromHeader (authorization : option string) : option string :=
  match authorization with
  | Some a => if truthy (VStr a) then split " " a !! 1%nat else None
  | None => None
  end.

End JWTLibHeader.

(** ** The upload callbacks *)

Record File := mkFile {
  fieldname : string;
  mimetype : string
}.

(** [fileFilter]: [Some accept] is the answer given to the callback, [None]
    means that the callback is not called. *)
Definition fileFilter (file : File) : option bool :=
  if String.eqb (fieldname file) "image" then
    Some (String.eqb (mimetype file) "image/jpg" || String.eqb (mimetype file) "image/jpeg")
  else if String.eqb (fieldname file) "file" then
    Some (String.eqb (mimetype file) "video/mp4")
  else None.

(** Where the generated name is stored on the request. *)
Inductive SavedName :=
| SavedImage (name : string)
| SavedVideo (name : string).

(** The [filename] callback of the storage; [None] means that the callback
    is not called. *)
Definition filename (now_ms : Z) (file : File) : option SavedName :=
  let extension := split "/" (mimetype file) !! 1%nat in
  if String.eqb (fieldname file) "image" then
    Some (SavedImage ("image_" ++ decimal now_ms ++ "." ++ js_String (js_of extension)))
  else if String.eqb (fieldname file) "file" then
    Some (SavedVideo ("video_" ++ decimal now_ms ++ "." ++ js_String (js_of extension)))
  else None.

(** ** The video router *)

Inductive Method := GET | POST | PUT | DELETE.

Inductive Segment :=
| Lit (s : string)
| Param (name : string).

Definition lower (c : ascii) : ascii :=
  let n := nat_of_ascii c in
  if bool_decide (65 <= n)%nat && bool_decide (n <= 90)%nat
  then ascii_of_nat (n + 32) else c.

Fixpoint lower_string (s : string) : string :=
  match s with
  | EmptyString => EmptyString
  | String c rest => String (lower c) (lower_string rest)
  end.

(** A path is the list of its segments.  A literal segment matches without
    regard to case, a parameter matches any segment that is not empty.
    [exact] routes must consume the whole path, a mounted router ([use])
    matches a prefix. *)
Fixpoint match_path (exact : bool) (pattern : list Segment) (path : list string)
  : option (gmap string string) :=
  match pattern, path with
  | [], [] => Some ∅
  | [], _ :: _ => if exact then None else Some ∅
  | Lit s :: pattern', seg :: path' =>
      if String.eqb (lower_string seg) (lower_string s)
      then match_path exact pattern' path' else None
  | Param name :: pattern', seg :: path' =>
      if String.eqb seg "" then None
      else (fun params => <[name := seg]> params) <$> match_path exact pattern' path'
  | _ :: _, [] => None
  end.

Inductive VideoEndpoint :=
| AddNewVideo | GetSingleVideo | UpdateSingleVideo | DeleteSingleVideo
| GetVideosByAccount | GetRandomVideos | AddViewToVideo | CommentRouter.

Record RouteEntry := mkRoute {
  route_method : option Method;
  route_exact : bool;
  route_pattern : list Segment;
  route_endpoint : VideoEndpoint
}.

(** The routes of [videoRouter] in the order they are registered. *)
Definition videoRouter : list RouteEntry :=
  [ mkRoute (Some POST) true [] AddNewVideo;
    mkRoute (Some GET) true [Param "videoId"] GetSingleVideo;
    mkRoute (Some PUT) true [Param "videoId"] UpdateSingleVideo;
    mkRoute (Some DELETE) true [Param "videoId"] DeleteSingleVideo;
    mkRoute (Some GET) true [Lit "find"; Param "accountId"] GetVideosByAccount;
    mkRoute (Some GET) true [Lit "find"; Lit "random"] GetRandomVideos;
    mkRoute (Some PUT) true [Lit "view"; Param "videoId"] AddViewToVideo;
    mkRoute None false [Param "videoId"; Lit "comments"] CommentRouter ].

#[global] Instance Method_eq_decision : EqDecision Method.
Proof. solve_decision. Defined.

#[global] Instance VideoEndpoint_eq_decision : EqDecision VideoEndpoint.
Proof. solve_decision. Defined.

Definition route_matches (r : RouteEntry) (method : Method) (path : list string)
  : option (gmap string string) :=
  match route_method r with
  | Some m => if decide (m = method)
              then match_path (route_exact r) (route_pattern r) path else None
  | None => match_path (route_exact r) (route_pattern r) path
  end.

(** The endpoints a request reaches, in order: the first route that matches
    runs; a later matching route runs only if the earlier one passed control
    on with a plain [next()], which [continues] tells. *)
Fixpoint serve (routes : list RouteEntry)
    (continues : VideoEndpoint -> gmap string string -> bool)
    (method : Method) (path : list string) : list VideoEndpoint :=
  match routes with
  | [] => []
  | r :: rest =>
      match route_matches r method path with
      | Some params =>
          route_endpoint r ::
            (if continues (route_endpoint r) params
             then serve rest continues method path else [])
      | None => serve rest continues method path
      end
  end.

(** The request with one more route parameter. *)
Definition with_param (req : Request) (name value : string) : Request :=
  mkRequest (req_cookies req) (<[name := value]> (req_params req)) (req_body req)
            (req_account req).

(** ** Further sample data *)


(** A request of [id_a], the owner of the sample video and comment, whose
    body names [id_b] as the video's account. *)
Definition ana_request : Request :=
  mkRequest ∅ {["accountId" := id_a; "videoId" := id_c; "commentId" := id_c]}
            {["account_id" := VStr id_b]} (Some (mkClaim id_a "Ana")).




(** A request of [id_b] whose cookie is a token issued for [id_b]. *)
Definition bea_token_request : Request :=
  mkRequest
    {["access_token" :=
        VStr (jwt.sign sample_mac (mkClaim id_b "Bea") (JWT_SECRET_KEY sample_env) 36000 5)]}
    {["accountId" := id_a]} ∅ None.

(** * Properties *)

(** ** Strings and the wire format *)

Lemma append_nil (b : string) : "" ++ b = b.
Proof. reflexivity. Qed.

Lemma append_cons (c : ascii) (a b : string) :
  String c a ++ b = String c (a ++ b).
Proof. reflexivity. Qed.

Lemma append_assoc (a b c : string) : (a ++ b) ++ c = a ++ (b ++ c).
Proof.
  induction a as [|x a IH]; [reflexivity|].
  now rewrite !append_cons, IH.
Qed.

Lemma count_ones_frame (n : nat) (rest : string) :
  count_ones (ones n ++ String "0" rest) = (n, String "0" rest).
Proof.
  induction n as [|n IH]; [reflexivity|].
  simpl ones. rewrite append_cons. simpl. now rewrite IH.
Qed.

Lemma split_at_append (s rest : string) :
  split_at (String.length s) (s ++ rest) = Some (s, rest).
Proof.
  induction s as [|c s IH]; [reflexivity|].
  rewrite append_cons. simpl. now rewrite IH.
Qed.

Lemma unframe_frame (s rest : string) :
  unframe (frame s ++ rest) = Some (s, rest).
Proof.
  unfold unframe, frame.
  rewrite append_assoc, append_cons, count_ones_frame.
  apply split_at_append.
Qed.

Lemma undecimal_decimal (n : Z) : undecimal (decimal n) = Some n.
Proof.
  unfold undecimal, decimal.
  rewrite NilEmpty.isi. simpl. now rewrite DecimalZ.of_to.
Qed.

Lemma decode_encode (p : Payload) (signature : string) :
  decode_token (encode_payload p ++ signature) = Some (p, signature).
Proof.
  unfold decode_token, encode_payload.
  rewrite !append_assoc.
  rewrite !unframe_frame, !undecimal_decimal.
  now destruct p.
Qed.

Lemma frame_truthy (s rest : string) : truthy (VStr (frame s ++ rest)) = true.
Proof.
  unfold frame. rewrite append_assoc.
  destruct (String.length s); reflexivity.
Qed.

Lemma sign_truthy mac claim key ttl now :
  truthy (VStr (jwt.sign mac claim key ttl now)) = true.
Proof.
  unfold jwt.sign, encode_payload. rewrite !append_assoc. apply frame_truthy.
Qed.

(** A token is accepted, with the payload it was issued for, at every
    instant before its expiry. *)
Lemma verify_sign mac claim key ttl now later :
  (later < now + ttl)%Z ->
  jwt.verify mac (jwt.sign mac claim key ttl now) key later
  = inr (mkPayload (claim_id claim) (claim_first_name claim) now (now + ttl)).
Proof.
  intros Hlive. unfold jwt.verify, jwt.sign.
  rewrite decode_encode, String.eqb_refl. simpl.
  destruct (Z.leb_spec (now + ttl) later); [lia | reflexivity].
Qed.

(** At or after the expiry the same token is refused as expired. *)
Lemma verify_expired mac claim key ttl now later :
  (now + ttl <= later)%Z ->
  jwt.verify mac (jwt.sign mac claim key ttl now) key later = inl TokenExpired.
Proof.
  intros Hdead. unfold jwt.verify, jwt.sign.
  rewrite decode_encode, String.eqb_refl. simpl.
  destruct (Z.leb_spec (now + ttl) later); [reflexivity | lia].
Qed.

(** ** The access guard *)

Lemma hasAccess_token mac env now_ms req t :
  req_cookies req !! "access_token" = Some (VStr t) ->
  t <> "" ->
  hasAccess mac env now_ms req =
    match jwt.verify mac t (JWT_SECRET_KEY env) (seconds now_ms) with
    | inl err => (req, Next (Some err))
    | inr result =>
        (set_account req (mkClaim (payload_id result) (payload_first_name result)),
         Next None)
    end.
Proof.
  intros Hc Ht. unfold hasAccess, prop. rewrite Hc. simpl.
  destruct (String.eqb_spec t ""); [contradiction | reflexivity].
Qed.

(** C4. Token round trip: the token [_sendToken] issues for an account
    under the configured key and a positive lifetime is put in the
    [access_token] cookie, and the guard, reading that cookie back at the
    same instant under the same key, accepts it and attaches the claim with
    the same [id] and [first_name]. *)
Theorem token_round_trip
    (mac : string -> string -> string) (env : Env) (now_ms : Z)
    (account : IdentityClaim) (ttl : Z) (req : Request) :
  parseInt (JWT_EXPIRE env) = Some ttl ->
  (0 < ttl)%Z ->
  let token := jwt.sign mac account (JWT_SECRET_KEY env) ttl (seconds now_ms) in
  (exists secure expires,
     JWTLib._sendToken mac env now_ms account =
       inr (mkResponse 200 [SetCookie "access_token" token true secure expires]
              (BToken true token (claim_id account) (claim_first_name account))))
  /\ (exists p,
        jwt.verify mac token (JWT_SECRET_KEY env) (seconds now_ms) = inr p
        /\ payload_id p = claim_id account
        /\ payload_first_name p = claim_first_name account)
  /\ (req_cookies req !! "access_token" = Some (VStr token) ->
      hasAccess mac env now_ms req = (set_account req account, Next None)).
Proof.
  intros Hexp Hpos token.
  assert (Hv : jwt.verify mac token (JWT_SECRET_KEY env) (seconds now_ms)
               = inr (mkPayload (claim_id account) (claim_first_name account)
                        (seconds now_ms) (seconds now_ms + ttl))).
  { apply verify_sign. lia. }
  split; [|split].
  - unfold JWTLib._sendToken. rewrite Hexp.
    destruct account as [i f]. simpl. eauto.
  - eexists. split; [exact Hv | split; reflexivity].
  - intros Hc.
    rewrite (hasAccess_token mac env now_ms req token Hc).
    + rewrite Hv. simpl. now destruct account.
    + intros Hempty.
      pose proof (sign_truthy mac account (JWT_SECRET_KEY env) ttl (seconds now_ms)) as Ht.
      fold token in Ht. rewrite Hempty in Ht. discriminate.
Qed.

(** ** Running the controllers *)

Lemma truthy_param (s : string) : s <> "" -> truthy (js_of (Some s)) = true.
Proof. intros H. simpl. now destruct (String.eqb_spec s ""). Qed.

Ltac run_handler :=
  unfold try_catch, next, respond, findById, findByIdAndUpdate, findByIdAndDelete,
    save, toString, throw, mbind, M_bind, mret, M_ret, lookup_id; simpl.

Section VideoAndComment.

Variable isValid : string -> bool.

Lemma updateSingleVideo_mismatch req db vid video owner :
  req_params req !! "videoId" = Some vid -> well_formed isValid vid ->
  videos db !! vid = Some video ->
  video !! "account_id" = Some (VStr owner) ->
  auth_id req <> Some owner ->
  updateSingleVideo isValid req db
  = (Next (Some (CustomError "You can update only your account" 400)),
     log (OFindById Video (Some vid)) db).
Proof.
  intros Hp [Hne Hv] Hdoc Hown Hauth.
  unfold updateSingleVideo. rewrite Hp, (truthy_param _ Hne). simpl.
  rewrite Hv. run_handler. rewrite Hdoc. unfold prop. rewrite Hown. simpl.
  destruct (decide (auth_id req = Some owner)); [contradiction | reflexivity].
Qed.

Lemma deleteSingleVideo_mismatch req db vid video owner :
  req_params req !! "videoId" = Some vid -> well_formed isValid vid ->
  videos db !! vid = Some video ->
  video !! "account_id" = Some (VStr owner) ->
  auth_id req <> Some owner ->
  deleteSingleVideo isValid req db
  = (Next (Some (CustomError "You can delete only your video" 400)),
     log (OFindById Video (Some vid)) db).
Proof.
  intros Hp [Hne Hv] Hdoc Hown Hauth.
  unfold deleteSingleVideo. rewrite Hp, (truthy_param _ Hne). simpl.
  rewrite Hv. run_handler. rewrite Hdoc. unfold prop. rewrite Hown. simpl.
  destruct (decide (auth_id req = Some owner)); [contradiction | reflexivity].
Qed.

Lemma deleteComment_mismatch req db cid comment owner actor :
  req_params req !! "commentId" = Some cid -> well_formed isValid cid ->
  comments db !! cid = Some comment ->
  comment !! "account_id" = Some (VStr owner) ->
  auth_id req = Some actor -> actor <> owner ->
  deleteComment isValid req db
  = (Respond (json 400 (BMessage false "You cannot delete this comment.")),
     log (OFindById Comment (Some cid)) db).
Proof.
  intros Hp [Hne Hv] Hdoc Hown Hauth Hdiff.
  unfold deleteComment. rewrite Hp, (truthy_param _ Hne). simpl.
  rewrite Hv. run_handler. rewrite Hdoc. unfold prop. rewrite Hown, Hauth. simpl.
  destruct (String.eqb_spec owner actor); [congruence | reflexivity].
Qed.

Lemma updateSingleVideo_missing req db vid :
  req_params req !! "videoId" = Some vid -> well_formed isValid vid ->
  videos db !! vid = None ->
  updateSingleVideo isValid req db
  = (Next (Some (CustomError "The video you are looking for could not be found." 404)),
     log (OFindById Video (Some vid)) db).
Proof.
  intros Hp [Hne Hv] Hdoc.
  unfold updateSingleVideo. rewrite Hp, (truthy_param _ Hne). simpl.
  rewrite Hv. run_handler. now rewrite Hdoc.
Qed.

Lemma deleteSingleVideo_missing req db vid :
  req_params req !! "videoId" = Some vid -> well_formed isValid vid ->
  videos db !! vid = None ->
  deleteSingleVideo isValid req db
  = (Next (Some (CustomError "The video you are looking for could not be found." 404)),
     log (OFindById Video (Some vid)) db).
Proof.
  intros Hp [Hne Hv] Hdoc.
  unfold deleteSingleVideo. rewrite Hp, (truthy_param _ Hne). simpl.
  rewrite Hv. run_handler. now rewrite Hdoc.
Qed.

Lemma deleteComment_missing req db cid :
  req_params req !! "commentId" = Some cid -> well_formed isValid cid ->
  comments db !! cid = None ->
  deleteComment isValid req db
  = (Respond (json 200 (BMessage true "Comment couldn't be find.")),
     log (OFindById Comment (Some cid)) db).
Proof.
  intros Hp [Hne Hv] Hdoc.
  unfold deleteComment. rewrite Hp, (truthy_param _ Hne). simpl.
  rewrite Hv. run_handler. now rewrite Hdoc.
Qed.

End VideoAndComment.

Lemma updateAccountInformations_mismatch req db target :
  req_params req !! "accountId" = Some target -> target <> "" ->
  auth_id req <> Some target ->
  updateAccountInformations req db
  = (Next (Some (CustomError "You cannot update this channel" 500)), db).
Proof.
  intros Hp Hne Hauth.
  unfold updateAccountInformations. rewrite Hp, (truthy_param _ Hne). simpl.
  destruct (decide (auth_id req <> Some target)); [reflexivity | contradiction].
Qed.

(** C2. A video update or delete by an actor who is not the stored owner
    is refused: the client receives HTTP 400 with [success: false] and the
    video collection is what it was.  A comment delete by a non-owner is
    refused in the same way and leaves the comments as they were. *)
Theorem non_owner_mutation_refused
    (isValid : string -> bool) (req : Request) (db : DB) (actor owner : string) :
  auth_id req = Some actor ->
  actor <> owner ->
  (forall vid video,
      req_params req !! "videoId" = Some vid -> well_formed isValid vid ->
      videos db !! vid = Some video ->
      video !! "account_id" = Some (VStr owner) ->
      (reply (updateSingleVideo isValid req db).1
         = Some (json 400 (BMessage false "You can update only your account"))
       /\ videos (updateSingleVideo isValid req db).2 = videos db)
      /\ (reply (deleteSingleVideo isValid req db).1
            = Some (json 400 (BMessage false "You can delete only your video"))
          /\ videos (deleteSingleVideo isValid req db).2 = videos db))
  /\ (forall cid comment,
        req_params req !! "commentId" = Some cid -> well_formed isValid cid ->
        comments db !! cid = Some comment ->
        comment !! "account_id" = Some (VStr owner) ->
        reply (deleteComment isValid req db).1
          = Some (json 400 (BMessage false "You cannot delete this comment."))
        /\ comments (deleteComment isValid req db).2 = comments db).
Proof.
  intros Hauth Hdiff.
  assert (Hno : auth_id req <> Some owner) by (rewrite Hauth; congruence).
  split.
  - intros vid video Hp Hwf Hdoc Hown.
    rewrite (updateSingleVideo_mismatch isValid req db vid video owner) by assumption.
    rewrite (deleteSingleVideo_mismatch isValid req db vid video owner) by assumption.
    repeat split; reflexivity.
  - intros cid comment Hp Hwf Hdoc Hown.
    rewrite (deleteComment_mismatch isValid req db cid comment owner actor) by assumption.
    split; reflexivity.
Qed.

Lemma ends_bind {A : Type} (P : Outcome -> Prop) (m : M A) (k : A -> M Outcome) :
  (forall a, ends_with P (k a)) -> ends_with P (m ≫= k).
Proof.
  intros Hk db. unfold mbind, M_bind.
  destruct (m db) as [[e | a] db']; [exact I | apply Hk].
Qed.

Lemma ends_next (P : Outcome -> Prop) (e : Error) :
  P (Next (Some e)) -> ends_with P (next e).
Proof. intros H db. exact H. Qed.

Lemma ends_respond (P : Outcome -> Prop) (r : Response) :
  P (Respond r) -> ends_with P (respond r).
Proof. intros H db. exact H. Qed.

Lemma ends_try_catch (P : Outcome -> Prop) (m : M Outcome) (db : DB) :
  ends_with P m -> (forall e, P (Next (Some e))) -> P (try_catch m db).1.
Proof.
  intros Hm He. unfold try_catch. specialize (Hm db).
  destruct (m db) as [[e | o] db']; simpl; auto.
Qed.

Ltac ends :=
  repeat match goal with
         | |- ends_with _ (next _) => apply ends_next
         | |- ends_with _ (respond _) => apply ends_respond
         | |- ends_with _ (mbind _ _) => apply ends_bind; intros
         | |- ends_with _ (if ?c then _ else _) => destruct c
         | |- ends_with _ (match ?x with _ => _ end) => destruct x
         end.

Ltac unfold_controllers :=
  unfold controller, updateAccountInformations, deleteSingleAccount,
    subscribeAccount, unsubscribeAccount, updateSingleVideo, deleteSingleVideo,
    deleteComment.

Lemma controller_forwards isValid r req db :
  r <> DeleteCommentRoute ->
  forwards_or_succeeds (controller isValid r req db).1.
Proof.
  intros Hr.
  destruct r; try contradiction; unfold_controllers;
    (apply ends_try_catch; [| intros; exact I]); ends; simpl; auto.
Qed.

Lemma deleteComment_endings isValid req db :
  deleteComment_ending (deleteComment isValid req db).1.
Proof.
  unfold deleteComment.
  (apply ends_try_catch; [| intros; exact I]); ends; simpl; auto.
Qed.

Lemma controller_never_continues isValid r req db :
  (controller isValid r req db).1 <> Next None.
Proof.
  destruct (decide (r = DeleteCommentRoute)) as [-> | Hr].
  - pose proof (deleteComment_endings isValid req db) as H. simpl.
    destruct (deleteComment isValid req db).1 as [|[e|]]; [discriminate.. | elim H].
  - pose proof (controller_forwards isValid r req db Hr) as H.
    destruct (controller isValid r req db).1 as [|[e|]]; [discriminate.. | elim H].
Qed.

Lemma hasAccess_falsy mac env now_ms req :
  truthy (prop (req_cookies req) "access_token") = false ->
  hasAccess mac env now_ms req
  = (req, Next (Some (CustomError "Please provide a token or authenticate." 401))).
Proof. intros Hf. unfold hasAccess. now rewrite Hf. Qed.

Lemma hasAccess_not_string mac env now_ms req v :
  req_cookies req !! "access_token" = Some v ->
  is_string v = false -> truthy v = true ->
  hasAccess mac env now_ms req
  = (req, Next (Some (CustomError "Invalid token format." 400))).
Proof.
  intros Hc Hs Ht. unfold hasAccess, prop. rewrite Hc. simpl. rewrite Ht. simpl.
  destruct v; try reflexivity. discriminate Hs.
Qed.

Lemma dispatch_guard_error mac isValid env now_ms r req db e :
  hasAccess mac env now_ms req = (req, Next (Some e)) ->
  dispatch (route mac isValid env now_ms r) req db = ([customErrorHandler e], db).
Proof. intros Hg. unfold route, dispatch, guard. now rewrite Hg. Qed.

(** C3. Guard failure surface: without the [access_token] cookie the guard
    forwards a 401 error, and so it does for every value that [!token]
    takes for missing (the empty string, or a falsy value); with a cookie
    whose value is present in that sense and is not a string (the object,
    array or number a JSON cookie parsed to) it forwards a 400 error.  In
    both cases the request is handed on unchanged, so no identity is
    attached, and on every guarded route the controller does not run: the
    database and its operation log are what they were and the client
    receives the responder's answer. *)
Theorem guard_failure_surface
    (mac : string -> string -> string) (isValid : string -> bool)
    (env : Env) (now_ms : Z) (r : Route) (req : Request) (db : DB) :
  (req_cookies req !! "access_token" = None
   \/ truthy (prop (req_cookies req) "access_token") = false ->
     hasAccess mac env now_ms req
       = (req, Next (Some (CustomError "Please provide a token or authenticate." 401)))
     /\ dispatch (route mac isValid env now_ms r) req db
        = ([json 401 (BMessage false "Please provide a token or authenticate.")], db))
  /\ (forall v,
        req_cookies req !! "access_token" = Some v ->
        is_string v = false -> truthy v = true ->
        hasAccess mac env now_ms req
          = (req, Next (Some (CustomError "Invalid token format." 400)))
        /\ dispatch (route mac isValid env now_ms r) req db
           = ([json 400 (BMessage false "Invalid token format.")], db)).
Proof.
  split.
  - intros Hc.
    assert (Hf : truthy (prop (req_cookies req) "access_token") = false).
    { destruct Hc as [Hc | Hc]; [| exact Hc]. unfold prop. now rewrite Hc. }
    pose proof (hasAccess_falsy mac env now_ms req Hf) as Hg.
    split; [exact Hg |].
    now rewrite (dispatch_guard_error mac isValid env now_ms r req db _ Hg).
  - intros v Hc Hs Ht.
    pose proof (hasAccess_not_string mac env now_ms req v Hc Hs Ht) as Hg.
    split; [exact Hg |].
    now rewrite (dispatch_guard_error mac isValid env now_ms r req db _ Hg).
Qed.

(** C5, as the code has it. For a well-formed id that names no stored
    document, the lookup is the only database operation and the answer does
    not depend on who asks: video update and video delete forward a 404
    not-found error, which differs from the 400 of an ownership mismatch;
    comment delete answers HTTP 200 with [success: true] and the message
    that the comment could not be found, which differs from the 400 it
    writes on an ownership mismatch. *)
Theorem missing_resource_checked_first
    (isValid : string -> bool) (req : Request) (db : DB) (id : string) :
  well_formed isValid id ->
  (req_params req !! "videoId" = Some id -> videos db !! id = None ->
     updateSingleVideo isValid req db
       = (Next (Some (CustomError "The video you are looking for could not be found." 404)),
          log (OFindById Video (Some id)) db)
     /\ deleteSingleVideo isValid req db
        = (Next (Some (CustomError "The video you are looking for could not be found." 404)),
           log (OFindById Video (Some id)) db))
  /\ (req_params req !! "commentId" = Some id -> comments db !! id = None ->
        deleteComment isValid req db
          = (Respond (json 200 (BMessage true "Comment couldn't be find.")),
             log (OFindById Comment (Some id)) db)).
Proof.
  intros Hwf. split.
  - intros Hp Hnone. split.
    + now apply updateSingleVideo_missing.
    + now apply deleteSingleVideo_missing.
  - intros Hp Hnone. now apply deleteComment_missing.
Qed.

Lemma subscribeAccount_self req db A :
  auth_id req = Some A -> req_params req !! "accountId" = Some A ->
  subscribeAccount req db
  = (Next (Some (CustomError "You cannot subscribe to yourself." 400)), db).
Proof.
  intros Hauth Hp. unfold subscribeAccount. rewrite Hauth, Hp.
  destruct (decide (Some A <> Some A)); [congruence | reflexivity].
Qed.

Lemma unsubscribeAccount_self req db A :
  auth_id req = Some A -> req_params req !! "accountId" = Some A ->
  unsubscribeAccount req db
  = (Next (Some (CustomError "You cannot unsubscribe to yourself." 400)), db).
Proof.
  intros Hauth Hp. unfold unsubscribeAccount. rewrite Hauth, Hp.
  destruct (decide (Some A <> Some A)); [congruence | reflexivity].
Qed.

(** C6. Subscribing or unsubscribing to oneself is refused with a 400
    client error and nothing in the database changes. *)
Theorem self_subscription_rejected (req : Request) (db : DB) (A : string) :
  auth_id req = Some A ->
  req_params req !! "accountId" = Some A ->
  (subscribeAccount req db
     = (Next (Some (CustomError "You cannot subscribe to yourself." 400)), db)
   /\ reply (subscribeAccount req db).1
      = Some (json 400 (BMessage false "You cannot subscribe to yourself.")))
  /\ (unsubscribeAccount req db
        = (Next (Some (CustomError "You cannot unsubscribe to yourself." 400)), db)
      /\ reply (unsubscribeAccount req db).1
         = Some (json 400 (BMessage false "You cannot unsubscribe to yourself."))).
Proof.
  intros Hauth Hp.
  rewrite (subscribeAccount_self req db A Hauth Hp).
  rewrite (unsubscribeAccount_self req db A Hauth Hp).
  repeat split; reflexivity.
Qed.

(** C9. An account update by an actor other than the target account is
    answered by the terminal responder with HTTP 500 and [{success: false,
    message}]; the ownership mismatch on a video update, a video delete or
    a comment delete is answered with HTTP 400 and the same body shape. *)
Theorem ownership_mismatch_status_codes
    (isValid : string -> bool) (req : Request) (db : DB) (actor : string) :
  auth_id req = Some actor ->
  (forall target,
      req_params req !! "accountId" = Some target -> target <> "" ->
      actor <> target ->
      reply (updateAccountInformations req db).1
        = Some (json 500 (BMessage false "You cannot update this channel")))
  /\ (forall vid video owner,
        req_params req !! "videoId" = Some vid -> well_formed isValid vid ->
        videos db !! vid = Some video ->
        video !! "account_id" = Some (VStr owner) -> actor <> owner ->
        reply (updateSingleVideo isValid req db).1
          = Some (json 400 (BMessage false "You can update only your account"))
        /\ reply (deleteSingleVideo isValid req db).1
           = Some (json 400 (BMessage false "You can delete only your video")))
  /\ (forall cid comment owner,
        req_params req !! "commentId" = Some cid -> well_formed isValid cid ->
        comments db !! cid = Some comment ->
        comment !! "account_id" = Some (VStr owner) -> actor <> owner ->
        reply (deleteComment isValid req db).1
          = Some (json 400 (BMessage false "You cannot delete this comment."))).
Proof.
  intros Hauth. split; [|split].
  - intros target Hp Hne Hdiff.
    rewrite (updateAccountInformations_mismatch req db target); try assumption.
    + reflexivity.
    + rewrite Hauth. congruence.
  - intros vid video owner Hp Hwf Hdoc Hown Hdiff.
    assert (Hno : auth_id req <> Some owner) by (rewrite Hauth; congruence).
    rewrite (updateSingleVideo_mismatch isValid req db vid video owner) by assumption.
    rewrite (deleteSingleVideo_mismatch isValid req db vid video owner) by assumption.
    split; reflexivity.
  - intros cid comment owner Hp Hwf Hdoc Hown Hdiff.
    now rewrite (deleteComment_mismatch isValid req db cid comment owner actor).
Qed.


Lemma members_insert_eq (d : Doc) (f : string) (l : list JSValue) :
  members (<[f := VArr l]> d) f = l.
Proof. unfold members. now rewrite lookup_insert_eq. Qed.

Lemma members_insert_ne (d : Doc) (f g : string) (v : JSValue) :
  f <> g -> members (<[f := v]> d) g = members d g.
Proof. intros H. unfold members. now rewrite lookup_insert_ne. Qed.

Lemma addToSet_members (d d' : Doc) (f g : string) (v x : JSValue) :
  apply_update (UAddToSet f v) d = inr d' ->
  x ∈ members d' g <-> x ∈ members d g \/ (g = f /\ x = v).
Proof.
  unfold apply_update. intros H.
  destruct (decide (g = f)) as [-> | Hg].
  - destruct (d !! f) as [[| | | | | items |] |] eqn:Hf; try discriminate H.
    + destruct (decide (v ∈ items)) as [Hin | Hin]; injection H as <-.
      * unfold members. rewrite Hf. split; [auto | intros [? | [_ ->]]; auto].
      * rewrite members_insert_eq. unfold members. rewrite Hf.
        rewrite elem_of_app, list_elem_of_singleton. tauto.
    + injection H as <-. rewrite members_insert_eq. unfold members. rewrite Hf.
      rewrite list_elem_of_singleton, elem_of_nil. tauto.
  - assert (members d' g = members d g) as ->.
    { destruct (d !! f) as [[| | | | | items |] |] eqn:Hf; try discriminate H.
      - destruct (decide (v ∈ items)); injection H as <-;
          [reflexivity | now apply members_insert_ne].
      - injection H as <-. now apply members_insert_ne. }
    tauto.
Qed.







Lemma addToSet_ok (d : Doc) (f : string) (v : JSValue) :
  array_or_absent d f -> exists d', apply_update (UAddToSet f v) d = inr d'.
Proof.
  unfold array_or_absent, apply_update. intros Hw.
  destruct (d !! f) as [[| | | | | items |] |]; try contradiction; [| eauto].
  destruct (decide (v ∈ items)); eauto.
Qed.


(** *** One update on the collection *)

Lemma update_in_lookup_ne accs accs' id id' u :
  update_in accs id u = inr accs' -> id' <> id -> accs' !! id' = accs !! id'.
Proof.
  unfold update_in. intros H Hne.
  destruct (accs !! id) as [d |]; [| now injection H as <-].
  destruct (apply_update u d) as [e | d']; [discriminate H |].
  injection H as <-. now rewrite lookup_insert_ne.
Qed.



Lemma update_in_error_frame accs accs' id u e :
  update_in accs id u = inl e -> accs' !! id = accs !! id ->
  update_in accs' id u = inl e.
Proof.
  unfold update_in. intros H Hsame. rewrite Hsame.
  destruct (accs !! id) as [d |]; [| discriminate H].
  now destruct (apply_update u d).
Qed.


Lemma update_in_ok accs id f v :
  (forall d, accs !! id = Some d -> array_or_absent d f) ->
  exists accs', update_in accs id (UAddToSet f v) = inr accs'.
Proof.
  intros Hw. unfold update_in.
  destruct (accs !! id) as [d |] eqn:Hd; [| eauto].
  destruct (addToSet_ok d f v (Hw d eq_refl)) as [d' ->]. eauto.
Qed.



Lemma update_in_member_add accs accs' id f v id' g x :
  update_in accs id (UAddToSet f v) = inr accs' ->
  member_of accs' id' g x
  <-> member_of accs id' g x \/ (id' = id /\ g = f /\ x = v /\ is_Some (accs !! id)).
Proof.
  unfold update_in, member_of. intros H.
  destruct (accs !! id) as [d |] eqn:Hd.
  - destruct (apply_update (UAddToSet f v) d) as [e | d'] eqn:Ha; [discriminate H |].
    injection H as <-.
    destruct (decide (id' = id)) as [-> | Hne].
    + rewrite lookup_insert_eq. split.
      * intros (d2 & [= <-] & Hx).
        apply (addToSet_members d d' f g v x Ha) in Hx as [Hx | [-> ->]]; [eauto |].
        right. repeat split; eauto.
      * intros [(d2 & Hd2 & Hx) | (_ & -> & -> & _)]; exists d'; (split; [reflexivity |]);
          apply (addToSet_members d d' _ _ v _ Ha); [| auto].
        left. congruence.
    + rewrite lookup_insert_ne by congruence. split; [auto |].
      intros [? | (? & _)]; [assumption | contradiction].
  - injection H as <-. split; [auto |].
    intros [? | (_ & _ & _ & [? ?])]; [assumption | discriminate].
Qed.



(** *** The two writes of subscribe and unsubscribe *)

Lemma findByIdAndUpdate_account i u new db :
  match update_in (accounts db) i u with
  | inl e =>
      findByIdAndUpdate Account (Some i) u new db
      = (inl e, log (OFindByIdAndUpdate Account (Some i) u) db)
  | inr accs' =>
      exists r,
        findByIdAndUpdate Account (Some i) u new db
        = (inr r, mkDB accs' (videos db) (comments db)
                    (oplog db ++ [OFindByIdAndUpdate Account (Some i) u]))
  end.
Proof.
  unfold update_in, findByIdAndUpdate. simpl.
  destruct (accounts db !! i) as [d |]; [| eauto].
  destruct (apply_update u d) as [e | d']; eauto.
Qed.

Lemma two_writes_run A u1 B u2 resp db :
  let run := try_catch (_ ← findByIdAndUpdate Account (Some A) u1 false;
                        _ ← findByIdAndUpdate Account (Some B) u2 false;
                        respond resp) db in
  let r := two_updates (accounts db) A u1 B u2 in
  run.1 = match r.1 with Some e => Next (Some e) | None => Respond resp end
  /\ accounts run.2 = r.2.
Proof.
  intros run r. subst run r. unfold two_updates, try_catch, mbind, M_bind.
  pose proof (findByIdAndUpdate_account A u1 false db) as H1.
  destruct (update_in (accounts db) A u1) as [e | accs1].
  - rewrite H1. split; reflexivity.
  - destruct H1 as [r1 ->].
    set (db1 := mkDB accs1 _ _ _).
    pose proof (findByIdAndUpdate_account B u2 false db1) as H2.
    change (accounts db1) with accs1 in H2.
    destruct (update_in accs1 B u2) as [e | accs2].
    + rewrite H2. split; reflexivity.
    + destruct H2 as [r2 ->]. split; reflexivity.
Qed.

Lemma subscribeAccount_run req db A B :
  auth_id req = Some A -> req_params req !! "accountId" = Some B -> A <> B ->
  let r := two_updates (accounts db) A (UAddToSet "subscribedUsers" (VStr B))
                                     B (UAddToSet "subscribers" (VStr A)) in
  (subscribeAccount req db).1
    = match r.1 with Some e => Next (Some e) | None => Respond (subscribed_message B) end
  /\ accounts (subscribeAccount req db).2 = r.2.
Proof.
  intros Hauth Hp Hne. unfold subscribeAccount. rewrite Hauth, Hp.
  destruct (decide (Some A <> Some B)) as [_ | Hn]; [| exfalso; apply Hn; congruence].
  apply two_writes_run.
Qed.





Lemma subscribed_to_member accs A B :
  subscribed_to accs A B <-> member_of accs A "subscribedUsers" (VStr B).
Proof. reflexivity. Qed.

Lemma subscriber_of_member accs B A :
  subscriber_of accs B A <-> member_of accs B "subscribers" (VStr A).
Proof. reflexivity. Qed.


Lemma subscribe_keeps_symmetry accs A B accs1 accs2 :
  A <> B -> symmetric accs ->
  is_Some (accs !! A) -> is_Some (accs !! B) ->
  update_in accs A (UAddToSet "subscribedUsers" (VStr B)) = inr accs1 ->
  update_in accs1 B (UAddToSet "subscribers" (VStr A)) = inr accs2 ->
  symmetric accs2.
Proof.
  intros Hne Hsym HA HB H1 H2 X Y HXY.
  rewrite subscribed_to_member, subscriber_of_member.
  rewrite (update_in_member_add _ _ _ _ _ X "subscribedUsers" (VStr Y) H2).
  rewrite (update_in_member_add _ _ _ _ _ X "subscribedUsers" (VStr Y) H1).
  rewrite (update_in_member_add _ _ _ _ _ Y "subscribers" (VStr X) H2).
  rewrite (update_in_member_add _ _ _ _ _ Y "subscribers" (VStr X) H1).
  assert (HB1 : is_Some (accs1 !! B)).
  { now rewrite (update_in_lookup_ne _ _ _ B _ H1) by congruence. }
  pose proof (Hsym X Y HXY) as Hs.
  rewrite subscribed_to_member, subscriber_of_member in Hs.
  split.
  - intros [[Hm | (-> & _ & [= ->] & _)] | (_ & [=] & _)].
    + left. left. now apply Hs.
    + right. auto.
  - intros [[Hm | (_ & [=] & _)] | (-> & _ & [= ->] & _)].
    + left. left. now apply Hs.
    + left. right. auto.
Qed.



Lemma fresh_account_members (name field : string) :
  field <> "first_name" -> members (fresh_account name) field = [].
Proof.
  intros Hf. unfold members, fresh_account. now rewrite lookup_singleton_ne.
Qed.

Lemma fresh_account_typed (name field : string) :
  field <> "first_name" -> array_or_absent (fresh_account name) field.
Proof.
  intros Hf. unfold array_or_absent, fresh_account. now rewrite lookup_singleton_ne.
Qed.


Lemma two_accounts_db_fresh (X : string) (d : Doc) :
  accounts two_accounts_db !! X = Some d -> exists name, d = fresh_account name.
Proof.
  unfold two_accounts_db. simpl. intros Hd.
  apply lookup_insert_Some in Hd as [[_ <-] | [_ Hd]]; [eauto |].
  apply lookup_singleton_Some in Hd as [_ <-]. eauto.
Qed.

Lemma fresh_accounts_symmetric (accs : Collection) :
  (forall X d, accs !! X = Some d -> exists name, d = fresh_account name) ->
  symmetric accs
  /\ (forall X Y, ~ subscribed_to accs X Y /\ ~ subscriber_of accs X Y)
  /\ (forall X d f, accs !! X = Some d -> f <> "first_name" -> array_or_absent d f).
Proof.
  intros Hfresh.
  assert (Hno : forall X f x, f <> "first_name" -> ~ member_of accs X f x).
  { intros X f x Hf (d & Hd & Hm).
    destruct (Hfresh X d Hd) as [name ->].
    rewrite fresh_account_members in Hm by assumption.
    now apply elem_of_nil in Hm. }
  split; [| split].
  - intros X Y _. split; intros Hm; exfalso; revert Hm; apply Hno; discriminate.
  - intros X Y. split; apply Hno; discriminate.
  - intros X d f Hd Hf. destruct (Hfresh X d Hd) as [name ->].
    now apply fresh_account_typed.
Qed.




(** ** The claims on the relationship manager *)



Lemma subscribeAccount_symmetric req db A B :
  auth_id req = Some A -> req_params req !! "accountId" = Some B ->
  symmetric (accounts db) ->
  is_Some (accounts db !! A) ->
  (exists d, accounts db !! B = Some d /\ array_or_absent d "subscribers") ->
  symmetric (accounts (subscribeAccount req db).2).
Proof.
  intros Hauth Hp Hsym HA (dB & HB & HwB).
  destruct (decide (A = B)) as [<- | Hne].
  { now rewrite (subscribeAccount_self req db A Hauth Hp). }
  destruct (subscribeAccount_run req db A B Hauth Hp Hne) as [_ ->].
  unfold two_updates.
  destruct (update_in (accounts db) A _) as [e | accs1] eqn:H1; [exact Hsym |].
  destruct (update_in_ok accs1 B "subscribers" (VStr A)) as [accs2 H2].
  { intros d Hd.
    rewrite (update_in_lookup_ne _ _ _ B _ H1) in Hd by congruence.
    congruence. }
  rewrite H2. simpl.
  now apply (subscribe_keeps_symmetry (accounts db) A B accs1 accs2).
Qed.




(** ** The terminal responder *)






(** ** Where the code departs from the specification *)

Lemma media_db_comment : comments media_db !! id_c = Some sample_comment.
Proof. apply lookup_singleton_eq. Qed.

Lemma media_db_video : videos media_db !! id_c = Some sample_video.
Proof. apply lookup_singleton_eq. Qed.

Lemma id_c_well_formed : well_formed hex24 id_c.
Proof. split; [discriminate | reflexivity]. Qed.

Lemma request_of_param actor param value body :
  req_params (request_of actor param value body) !! param = Some value.
Proof. apply lookup_singleton_eq. Qed.

(** Deleting a comment that does not exist is answered as a success. *)
Lemma missing_comment_answered_with_success :
  comments empty_db !! id_c = None
  /\ reply (deleteComment hex24 (request_of id_a "commentId" id_c ∅) empty_db).1
     = Some (json 200 (BMessage true "Comment couldn't be find."))
  /\ is_failure (json 200 (BMessage true "Comment couldn't be find.")) = false.
Proof.
  split; [apply lookup_empty |]. split; [| reflexivity].
  rewrite (deleteComment_missing hex24 _ empty_db id_c).
  - reflexivity.
  - apply request_of_param.
  - exact id_c_well_formed.
  - apply lookup_empty.
Qed.


Lemma two_accounts_db_symmetric :
  symmetric (accounts two_accounts_db)
  /\ (forall X Y, ~ subscribed_to (accounts two_accounts_db) X Y
                 /\ ~ subscriber_of (accounts two_accounts_db) X Y)
  /\ (forall X d f, accounts two_accounts_db !! X = Some d ->
                    f <> "first_name" -> array_or_absent d f).
Proof. apply fresh_accounts_symmetric. exact two_accounts_db_fresh. Qed.

Lemma bea_request_account : req_params bea_request !! "accountId" = Some id_a.
Proof. apply lookup_insert_eq. Qed.

Lemma bea_request_video : req_params bea_request !! "videoId" = Some id_c.
Proof. reflexivity. Qed.

Lemma bea_request_comment : req_params bea_request !! "commentId" = Some id_c.
Proof. reflexivity. Qed.

(** Deleting an account that others still follow leaves their
    [subscribedUsers] pointing at an account that is gone. *)
Lemma delete_followed_account_breaks_symmetry :
  let linked := (subscribeAccount bea_request two_accounts_db).2 in
  symmetric (accounts linked)
  /\ ~ symmetric
        (accounts (deleteSingleAccount (request_of id_a "accountId" id_a ∅) linked).2).
Proof.
  intros linked. split.
  - apply (subscribeAccount_symmetric bea_request two_accounts_db id_b id_a).
    + reflexivity.
    + exact bea_request_account.
    + apply two_accounts_db_symmetric.
    + eexists. reflexivity.
    + exists (fresh_account "Ana"). split; [apply lookup_insert_eq |].
      now apply fresh_account_typed.
  - intros Hsym.
    assert (Hne : id_b <> id_a) by discriminate.
    assert (Ha : accounts (deleteSingleAccount (request_of id_a "accountId" id_a ∅)
                             linked).2 !! id_a = None)
      by (vm_compute; reflexivity).
    assert (Hb : accounts (deleteSingleAccount (request_of id_a "accountId" id_a ∅)
                             linked).2 !! id_b
                 = Some (<["subscribedUsers" := VArr [VStr id_a]]> (fresh_account "Bea")))
      by (vm_compute; reflexivity).
    destruct (proj1 (Hsym id_b id_a Hne)) as (d & Hd & _).
    + eexists. split; [exact Hb |].
      rewrite members_insert_eq. now apply list_elem_of_singleton.
    + rewrite Ha in Hd. discriminate Hd.
Qed.

(** ** The claims at concrete inputs *)


Lemma non_owner_mutation_refused_witness :
  (reply (updateSingleVideo hex24 bea_request media_db).1
     = Some (json 400 (BMessage false "You can update only your account"))
   /\ videos (updateSingleVideo hex24 bea_request media_db).2 = videos media_db)
  /\ (reply (deleteSingleVideo hex24 bea_request media_db).1
        = Some (json 400 (BMessage false "You can delete only your video"))
      /\ videos (deleteSingleVideo hex24 bea_request media_db).2 = videos media_db)
  /\ (reply (deleteComment hex24 bea_request media_db).1
        = Some (json 400 (BMessage false "You cannot delete this comment."))
      /\ comments (deleteComment hex24 bea_request media_db).2 = comments media_db).
Proof.
  assert (Hdiff : id_b <> id_a) by discriminate.
  destruct (non_owner_mutation_refused hex24 bea_request media_db id_b id_a
              eq_refl Hdiff) as [Hv Hc].
  destruct (Hv id_c sample_video bea_request_video id_c_well_formed media_db_video
              (lookup_insert_eq _ _ _)) as [Hu Hd].
  split; [exact Hu |]. split; [exact Hd |].
  exact (Hc id_c sample_comment bea_request_comment id_c_well_formed media_db_comment
           (lookup_insert_eq _ _ _)).
Defined.

Lemma guard_failure_surface_witness :
  dispatch (route sample_mac hex24 sample_env 0 PutVideo)
           (mkRequest ∅ {["videoId" := id_c]} ∅ None) media_db
    = ([json 401 (BMessage false "Please provide a token or authenticate.")], media_db)
  /\ dispatch (route sample_mac hex24 sample_env 0 PutVideo)
              (mkRequest {["access_token" := VObj [("id", VStr id_a)]]}
                         {["videoId" := id_c]} ∅ None) media_db
     = ([json 400 (BMessage false "Invalid token format.")], media_db).
Proof.
  split.
  - apply (guard_failure_surface sample_mac hex24 sample_env 0 PutVideo
             (mkRequest ∅ {["videoId" := id_c]} ∅ None) media_db).
    left. apply lookup_empty.
  - apply (guard_failure_surface sample_mac hex24 sample_env 0 PutVideo
             (mkRequest {["access_token" := VObj [("id", VStr id_a)]]}
                        {["videoId" := id_c]} ∅ None) media_db)
      with (v := VObj [("id", VStr id_a)]).
    + apply lookup_singleton_eq.
    + reflexivity.
    + reflexivity.
Defined.

Lemma token_round_trip_witness :
  parseInt (JWT_EXPIRE sample_env) = Some 36000%Z
  /\ (0 < 36000)%Z
  /\ hasAccess sample_mac sample_env 5000
       (mkRequest
          {["access_token" :=
              VStr (jwt.sign sample_mac (mkClaim id_a "Ana") "secret" 36000 5)]}
          ∅ ∅ None)
     = (set_account
          (mkRequest
             {["access_token" :=
                 VStr (jwt.sign sample_mac (mkClaim id_a "Ana") "secret" 36000 5)]}
             ∅ ∅ None)
          (mkClaim id_a "Ana"),
        Next None).
Proof.
  split; [reflexivity |]. split; [lia |].
  apply (token_round_trip sample_mac sample_env 5000 (mkClaim id_a "Ana") 36000
           (mkRequest
              {["access_token" :=
                  VStr (jwt.sign sample_mac (mkClaim id_a "Ana") "secret" 36000 5)]}
              ∅ ∅ None)).
  - reflexivity.
  - lia.
  - apply lookup_singleton_eq.
Defined.

Lemma missing_resource_checked_first_witness :
  updateSingleVideo hex24 bea_request empty_db
    = (Next (Some (CustomError "The video you are looking for could not be found." 404)),
       log (OFindById Video (Some id_c)) empty_db)
  /\ deleteComment hex24 bea_request empty_db
     = (Respond (json 200 (BMessage true "Comment couldn't be find.")),
        log (OFindById Comment (Some id_c)) empty_db).
Proof.
  destruct (missing_resource_checked_first hex24 bea_request empty_db id_c
              id_c_well_formed) as [Hv Hc].
  split.
  - apply Hv; [exact bea_request_video | apply lookup_empty].
  - apply Hc; [exact bea_request_comment | apply lookup_empty].
Defined.

Lemma self_subscription_rejected_witness :
  subscribeAccount (request_of id_a "accountId" id_a ∅) one_account_db
    = (Next (Some (CustomError "You cannot subscribe to yourself." 400)), one_account_db)
  /\ unsubscribeAccount (request_of id_a "accountId" id_a ∅) one_account_db
     = (Next (Some (CustomError "You cannot unsubscribe to yourself." 400)), one_account_db).
Proof.
  destruct (self_subscription_rejected (request_of id_a "accountId" id_a ∅)
              one_account_db id_a eq_refl (request_of_param _ _ _ _))
    as [[Hs _] [Hu _]].
  split; assumption.
Defined.



Lemma ownership_mismatch_status_codes_witness :
  reply (updateAccountInformations bea_request media_db).1
    = Some (json 500 (BMessage false "You cannot update this channel"))
  /\ reply (updateSingleVideo hex24 bea_request media_db).1
     = Some (json 400 (BMessage false "You can update only your account"))
  /\ reply (deleteSingleVideo hex24 bea_request media_db).1
     = Some (json 400 (BMessage false "You can delete only your video"))
  /\ reply (deleteComment hex24 bea_request media_db).1
     = Some (json 400 (BMessage false "You cannot delete this comment.")).
Proof.
  assert (Hdiff : id_b <> id_a) by discriminate.
  assert (Hne : id_a <> "") by discriminate.
  destruct (ownership_mismatch_status_codes hex24 bea_request media_db id_b eq_refl)
    as (Ha & Hv & Hc).
  split; [exact (Ha id_a bea_request_account Hne Hdiff) |].
  destruct (Hv id_c sample_video id_a bea_request_video id_c_well_formed media_db_video
              (lookup_insert_eq _ _ _) Hdiff) as [Hu Hd].
  split; [exact Hu |]. split; [exact Hd |].
  exact (Hc id_c sample_comment id_a bea_request_comment id_c_well_formed
           media_db_comment (lookup_insert_eq _ _ _) Hdiff).
Defined.


(** * Further properties of the modelled code *)

(** ** The terminal responder and the guard *)

(** X1. Whatever error reaches it, the terminal responder writes
    [success: false], sets no cookie and never uses a falsy status; an error
    named [SyntaxError] or [ValidationError], or one with the duplicate-key
    code, is answered with 400 whatever status the error itself carries. *)
Theorem responder_never_reports_success (e : Error) :
  body_success (res_body (customErrorHandler e)) = false
  /\ res_cookies (customErrorHandler e) = []
  /\ res_status (customErrorHandler e) <> 0%Z
  /\ (err_name e = "SyntaxError" \/ err_name e = "ValidationError"
      \/ err_code e = Some 11000%Z ->
      res_status (customErrorHandler e) = 400%Z).
Proof.
  unfold customErrorHandler.
  destruct (String.eqb_spec (err_name e) "SyntaxError") as [Hs | Hs].
  { repeat split; simpl; discriminate || reflexivity || auto. }
  destruct (String.eqb_spec (err_name e) "ValidationError") as [Hv | Hv].
  { repeat split; simpl; discriminate || reflexivity || auto. }
  destruct (bool_decide (err_code e = Some 11000%Z)) eqn:Hc.
  { repeat split; simpl; discriminate || reflexivity || auto. }
  apply bool_decide_eq_false in Hc.
  repeat split; simpl.
  - unfold status_or_500. destruct (err_status e) as [n |]; [| discriminate].
    destruct (Z.eqb_spec n 0); [discriminate | assumption].
  - intros [H | [H | H]]; contradiction.
Qed.

Lemma responder_never_reports_success_witness :
  res_status (customErrorHandler (mkError "ValidationError" "first_name is required"
                                    (Some 500%Z) None)) = 400%Z.
Proof.
  apply (responder_never_reports_success
           (mkError "ValidationError" "first_name is required" (Some 500%Z) None)).
  right. left. reflexivity.
Defined.

(** X2. The guard never touches the cookies, the parameters or the body of
    the request.  When it lets the request through it has attached an
    identity, replacing any identity the request carried; in every other
    case the request is handed on exactly as it came. *)
Theorem hasAccess_changes_only_the_account
    (mac : string -> string -> string) (env : Env) (now_ms : Z) (req : Request) :
  req_cookies (hasAccess mac env now_ms req).1 = req_cookies req
  /\ req_params (hasAccess mac env now_ms req).1 = req_params req
  /\ req_body (hasAccess mac env now_ms req).1 = req_body req
  /\ match (hasAccess mac env now_ms req).2 with
     | Next None =>
         exists t p,
           req_cookies req !! "access_token" = Some (VStr t)
           /\ jwt.verify mac t (JWT_SECRET_KEY env) (seconds now_ms) = inr p
           /\ (hasAccess mac env now_ms req).1
              = set_account req (mkClaim (payload_id p) (payload_first_name p))
     | _ => (hasAccess mac env now_ms req).1 = req
     end.
Proof.
  unfold hasAccess, prop.
  destruct (req_cookies req !! "access_token") as [v |] eqn:Hc; simpl;
    [| repeat split; reflexivity].
  destruct (negb (truthy v)); [repeat split; reflexivity |].
  destruct v; try (repeat split; reflexivity).
  destruct (jwt.verify mac s (JWT_SECRET_KEY env) (seconds now_ms)) as [e | p] eqn:Hv;
    simpl; [repeat split; reflexivity |].
  repeat split. exists s, p. auto.
Qed.


Lemma dispatch_route_full mac isValid env now_ms r req db :
  dispatch (route mac isValid env now_ms r) req db
  = match hasAccess mac env now_ms req with
    | (_, Respond resp) => ([resp], db)
    | (_, Next (Some e)) => ([customErrorHandler e], db)
    | (req', Next None) =>
        match controller isValid r req' db with
        | (Respond resp, db') => ([resp], db')
        | (Next (Some e), db') => ([customErrorHandler e], db')
        | (Next None, db') => ([], db')
        end
    end.
Proof.
  unfold route, dispatch, guard, handler.
  destruct (hasAccess mac env now_ms req) as [req' [resp | [e |]]]; try reflexivity.
  destruct (controller isValid r req' db) as [[resp | [e |]] db']; reflexivity.
Qed.


(** X4. The guard and the controller compose: a request that carries a
    token issued for a claim, presented under the same key before the
    token's expiry, is handled by the route's controller with exactly that
    claim as [req.account], and the client receives the controller's own
    response or the responder's answer to the error it forwarded. *)
Theorem valid_token_runs_controller_as_its_subject
    (mac : string -> string -> string) (isValid : string -> bool)
    (env : Env) (issued_ms now_ms : Z) (ttl : Z) (claim : IdentityClaim)
    (r : Route) (req : Request) (db : DB) :
  req_cookies req !! "access_token"
    = Some (VStr (jwt.sign mac claim (JWT_SECRET_KEY env) ttl (seconds issued_ms))) ->
  (seconds now_ms < seconds issued_ms + ttl)%Z ->
  exists resp,
    reply (controller isValid r (set_account req claim) db).1 = Some resp
    /\ dispatch (route mac isValid env now_ms r) req db
       = ([resp], (controller isValid r (set_account req claim) db).2).
Proof.
  intros Hc Hlive.
  assert (Hg : hasAccess mac env now_ms req = (set_account req claim, Next None)).
  { rewrite (hasAccess_token mac env now_ms req _ Hc).
    - rewrite verify_sign by assumption. simpl. now destruct claim.
    - intros Hempty.
      pose proof (sign_truthy mac claim (JWT_SECRET_KEY env) ttl (seconds issued_ms)) as Ht.
      rewrite Hempty in Ht. discriminate. }
  rewrite dispatch_route_full, Hg.
  pose proof (controller_never_continues isValid r (set_account req claim) db) as Hn.
  destruct (controller isValid r (set_account req claim) db) as [[resp | [e |]] db'];
    simpl in *; eauto.
  now elim Hn.
Qed.

(** ** Subscription edges *)












(** X23. [deleteComment] never reads the video id of the path
    [/api/video/:videoId/comments/:commentId]: whatever video the path
    names, the outcome and the resulting database are the same, so a comment
    is deleted by its owner through the path of any video. *)
Theorem deleteComment_ignores_the_video_of_the_path
    (isValid : string -> bool) (req : Request) (db : DB) (vid : string) :
  deleteComment isValid (with_param req "videoId" vid) db = deleteComment isValid req db.
Proof.
  unfold deleteComment, with_param, auth_id. simpl.
  now rewrite lookup_insert_ne by discriminate.
Qed.

(** ** What an owner can do *)

Section OwnerPaths.

Variable isValid : string -> bool.


Lemma deleteSingleVideo_owner req db vid video owner :
  req_params req !! "videoId" = Some vid -> well_formed isValid vid ->
  videos db !! vid = Some video ->
  video !! "account_id" = Some (VStr owner) ->
  auth_id req = Some owner ->
  deleteSingleVideo isValid req db
  = (Respond (json 200 (BText true "Your video has been deleted.")),
     mkDB (accounts db) (delete vid (videos db)) (comments db)
          ((oplog db ++ [OFindById Video (Some vid)])
             ++ [OFindByIdAndDelete Video (Some vid)])).
Proof.
  intros Hp [Hne Hv] Hdoc Hown Hauth.
  unfold deleteSingleVideo. rewrite Hp, (truthy_param _ Hne). simpl.
  rewrite Hv. run_handler. rewrite Hdoc. unfold prop. rewrite Hown, Hauth. simpl.
  destruct (decide (Some owner = Some owner)); [| congruence].
  reflexivity.
Qed.

Lemma deleteComment_owner req db cid comment owner :
  req_params req !! "commentId" = Some cid -> well_formed isValid cid ->
  comments db !! cid = Some comment ->
  comment !! "account_id" = Some (VStr owner) ->
  auth_id req = Some owner ->
  deleteComment isValid req db
  = (Respond (json 200 (BMessage true "Your comment has been deleted.")),
     mkDB (accounts db) (videos db) (delete cid (comments db))
          ((oplog db ++ [OFindById Comment (Some cid)])
             ++ [OFindByIdAndDelete Comment (Some cid)])).
Proof.
  intros Hp [Hne Hv] Hdoc Hown Hauth.
  unfold deleteComment. rewrite Hp, (truthy_param _ Hne). simpl.
  rewrite Hv. run_handler. rewrite Hdoc. unfold prop. rewrite Hown, Hauth. simpl.
  now rewrite String.eqb_refl.
Qed.

End OwnerPaths.


(** X9. The owner's video delete removes exactly that video: the other
    videos, the accounts and all comments, including those written on the
    deleted video, stay as they were.  Repeating the delete is answered with
    404. *)
Theorem owner_delete_removes_only_the_video
    (isValid : string -> bool) (req : Request) (db : DB)
    (vid owner : string) (video : Doc) :
  req_params req !! "videoId" = Some vid -> well_formed isValid vid ->
  videos db !! vid = Some video ->
  video !! "account_id" = Some (VStr owner) ->
  auth_id req = Some owner ->
  let after := (deleteSingleVideo isValid req db).2 in
  (deleteSingleVideo isValid req db).1
    = Respond (json 200 (BText true "Your video has been deleted."))
  /\ videos after !! vid = None
  /\ (forall other, other <> vid -> videos after !! other = videos db !! other)
  /\ accounts after = accounts db
  /\ comments after = comments db
  /\ reply (deleteSingleVideo isValid req after).1
     = Some (json 404 (BMessage false "The video you are looking for could not be found.")).
Proof.
  intros Hp Hwf Hdoc Hown Hauth after. subst after.
  rewrite (deleteSingleVideo_owner isValid req db vid video owner) by assumption.
  simpl. repeat split.
  - apply lookup_delete_eq.
  - intros other Hne. now apply lookup_delete_ne.
  - rewrite (deleteSingleVideo_missing isValid req _ vid); try assumption.
    + reflexivity.
    + apply lookup_delete_eq.
Qed.

(** X10. The owner's comment delete removes exactly that comment and leaves
    the other comments, the videos and the accounts as they were.  Repeating
    the delete is answered with 200 and the message that the comment could
    not be found. *)
Theorem owner_delete_removes_only_the_comment
    (isValid : string -> bool) (req : Request) (db : DB)
    (cid owner : string) (comment : Doc) :
  req_params req !! "commentId" = Some cid -> well_formed isValid cid ->
  comments db !! cid = Some comment ->
  comment !! "account_id" = Some (VStr owner) ->
  auth_id req = Some owner ->
  let after := (deleteComment isValid req db).2 in
  (deleteComment isValid req db).1
    = Respond (json 200 (BMessage true "Your comment has been deleted."))
  /\ comments after !! cid = None
  /\ (forall other, other <> cid -> comments after !! other = comments db !! other)
  /\ accounts after = accounts db
  /\ videos after = videos db
  /\ (deleteComment isValid req after).1
     = Respond (json 200 (BMessage true "Comment couldn't be find.")).
Proof.
  intros Hp Hwf Hdoc Hown Hauth after. subst after.
  rewrite (deleteComment_owner isValid req db cid comment owner) by assumption.
  simpl. repeat split.
  - apply lookup_delete_eq.
  - intros other Hne. now apply lookup_delete_ne.
  - rewrite (deleteComment_missing isValid req _ cid); try assumption.
    + reflexivity.
    + apply lookup_delete_eq.
Qed.

(** ** Account self-service *)


Lemma deleteSingleAccount_run req db A :
  auth_id req = Some A -> req_params req !! "accountId" = Some A -> A <> "" ->
  deleteSingleAccount req db
  = (Respond (mkResponse 200 [ClearCookie "access_token"]
                (BMessage true "Your channel has been deleted successfully.")),
     mkDB (delete A (accounts db)) (videos db) (comments db)
          (oplog db ++ [OFindByIdAndDelete Account (Some A)])).
Proof.
  intros Hauth Hp Hne.
  unfold deleteSingleAccount. rewrite Hauth, Hp, (truthy_param _ Hne). simpl.
  destruct (decide (Some A <> Some A)); [congruence | reflexivity].
Qed.

(** X11. Deleting one's own account answers 200 and clears the
    [access_token] cookie, whether or not the account is still stored; it
    removes that account document only.  Every video and every comment,
    those of the deleted account included, stays in the store, and so does
    every other account.  An actor other than the target is refused with
    500 and nothing changes. *)
Theorem account_delete_does_not_cascade (req : Request) (db : DB) (A : string) :
  req_params req !! "accountId" = Some A -> A <> "" ->
  (auth_id req = Some A ->
     (deleteSingleAccount req db).1
       = Respond (mkResponse 200 [ClearCookie "access_token"]
                    (BMessage true "Your channel has been deleted successfully."))
     /\ accounts (deleteSingleAccount req db).2 = delete A (accounts db)
     /\ videos (deleteSingleAccount req db).2 = videos db
     /\ comments (deleteSingleAccount req db).2 = comments db)
  /\ (auth_id req <> Some A ->
      deleteSingleAccount req db
      = (Next (Some (CustomError "You cannot delete this channel." 500)), db)).
Proof.
  intros Hp Hne. split.
  - intros Hauth. rewrite (deleteSingleAccount_run req db A Hauth Hp Hne).
    repeat split.
  - intros Hauth. unfold deleteSingleAccount.
    rewrite Hp, (truthy_param _ Hne). simpl.
    destruct (decide (auth_id req <> Some A)); [reflexivity | contradiction].
Qed.



(** ** Validation *)

(** X13. A missing, empty or ill-formed id is rejected with 400 before the
    database is consulted: the video update, the video delete and the
    comment delete return the database exactly as they received it, log
    included; the account update and the account delete do the same for an
    empty account id. *)
Theorem malformed_id_rejected_before_database
    (isValid : string -> bool) (req : Request) (db : DB) :
  ((forall id, req_params req !! "videoId" = Some id -> id = "" \/ isValid id = false) ->
   exists m1 m2,
     updateSingleVideo isValid req db = (Next (Some (CustomError m1 400)), db)
     /\ deleteSingleVideo isValid req db = (Next (Some (CustomError m2 400)), db))
  /\ ((forall id, req_params req !! "commentId" = Some id ->
                  id = "" \/ isValid id = false) ->
      exists m, deleteComment isValid req db = (Next (Some (CustomError m 400)), db))
  /\ ((forall id, req_params req !! "accountId" = Some id -> id = "") ->
      exists m1 m2,
        updateAccountInformations req db = (Next (Some (CustomError m1 400)), db)
        /\ deleteSingleAccount req db = (Next (Some (CustomError m2 400)), db)).
Proof.
  split; [| split].
  - intros Hbad. unfold updateSingleVideo, deleteSingleVideo.
    destruct (req_params req !! "videoId") as [id |]; [| simpl; eauto].
    destruct (Hbad id eq_refl) as [-> | Hv]; [simpl; eauto |].
    destruct (negb (truthy (js_of (Some id)))); [eauto |].
    simpl. rewrite Hv. simpl. eauto.
  - intros Hbad. unfold deleteComment.
    destruct (req_params req !! "commentId") as [id |]; [| simpl; eauto].
    destruct (Hbad id eq_refl) as [-> | Hv]; [simpl; eauto |].
    destruct (negb (truthy (js_of (Some id)))); [eauto |].
    simpl. rewrite Hv. simpl. eauto.
  - intros Hbad. unfold updateAccountInformations, deleteSingleAccount.
    destruct (req_params req !! "accountId") as [id |]; [| simpl; eauto].
    rewrite (Hbad id eq_refl). simpl. eauto.
Qed.

(** ** Read-only controllers *)



(** X19. [getSingleVideo] answers 200 with the stored video for a
    well-formed id that is stored and 404 for one that is not; an id that
    is not well formed is answered with 404 as well, where the update and
    the delete of a video answer 400; only a missing id gives 400.  Nothing
    in the store changes. *)
Theorem getSingleVideo_answers
    (isValid : string -> bool) (req : Request) (db : DB) :
  (forall id,
      req_params req !! "videoId" = Some id -> well_formed isValid id ->
      (getSingleVideo isValid req db).1
      = match videos db !! id with
        | Some video => Respond (json 200 (BData true (Some video)))
        | None =>
            Next (Some (CustomError "The video you are looking for could not be found." 404))
        end)
  /\ (forall id,
        req_params req !! "videoId" = Some id -> id <> "" -> isValid id = false ->
        getSingleVideo isValid req db
          = (Next (Some (CustomError "Please provide a verified ID" 404)), db)
        /\ updateSingleVideo isValid req db
           = (Next (Some (CustomError "Please provide a verified id." 400)), db))
  /\ ((forall id, req_params req !! "videoId" = Some id -> id = "") ->
      getSingleVideo isValid req db
        = (Next (Some (CustomError "Please provide a video id" 400)), db))
  /\ accounts (getSingleVideo isValid req db).2 = accounts db
  /\ videos (getSingleVideo isValid req db).2 = videos db
  /\ comments (getSingleVideo isValid req db).2 = comments db.
Proof.
  split; [| split; [| split]].
  - intros id Hp [Hne Hv]. unfold getSingleVideo.
    rewrite Hp, (truthy_param _ Hne). simpl. rewrite Hv. run_handler.
    destruct (videos db !! id); reflexivity.
  - intros id Hp Hne Hv. unfold getSingleVideo, updateSingleVideo.
    rewrite Hp, (truthy_param _ Hne). simpl. rewrite Hv. split; reflexivity.
  - intros Hempty. unfold getSingleVideo.
    destruct (req_params req !! "videoId") as [id |]; [| reflexivity].
    now rewrite (Hempty id eq_refl).
  - unfold getSingleVideo.
    destruct (negb (truthy (js_of (req_params req !! "videoId"))));
      [repeat split |].
    destruct (negb (valid_param isValid (req_params req !! "videoId")));
      [repeat split |].
    run_handler.
    destruct (req_params req !! "videoId") as [id |]; simpl; [| repeat split].
    destruct (videos db !! id); repeat split.
Qed.

Lemma find_members (m : Model) (field : string) (value : JSValue) (db : DB) (d : Doc) :
  d ∈ filter (fun d => prop d field = value) (map_to_list (coll m db)).*2
  <-> (exists id, coll m db !! id = Some d) /\ prop d field = value.
Proof.
  rewrite list_elem_of_filter, list_elem_of_fmap. split.
  - intros [Hf ([id d'] & -> & Hin)]. apply elem_of_map_to_list in Hin. eauto.
  - intros [[id Hid] Hf]. split; [exact Hf |].
    exists (id, d). split; [reflexivity |]. now apply elem_of_map_to_list.
Qed.


(** X22. [getComments] rejects a missing or ill-formed video id with 400;
    for a well-formed id it answers 200 with exactly the stored comments
    whose [video_id] is that id.  It does not look the video up, so an id
    that names no video gets the comments stored under it, usually none,
    and not a 404.  The store is left as it is. *)
Theorem getComments_lists_the_comments_of_the_video
    (isValid : string -> bool) (req : Request) (db : DB) :
  (forall id,
      req_params req !! "videoId" = Some id -> well_formed isValid id ->
      exists data,
        getComments isValid req db = (RespondList 200 true data, db)
        /\ (forall d,
              d ∈ data
              <-> (exists cid, comments db !! cid = Some d)
                  /\ prop d "video_id" = VStr id))
  /\ ((forall id, req_params req !! "videoId" = Some id ->
                  id = "" \/ isValid id = false) ->
      exists message,
        getComments isValid req db = (NextList (Some (CustomError message 400)), db)).
Proof.
  split.
  - intros id Hp [Hne Hv]. unfold getComments.
    rewrite Hp, (truthy_param _ Hne). simpl. rewrite Hv. simpl.
    eexists. split; [reflexivity |].
    intros d. apply (find_members Comment).
  - intros Hbad. unfold getComments.
    destruct (req_params req !! "videoId") as [id |]; [| simpl; eauto].
    destruct (Hbad id eq_refl) as [-> | Hv]; [simpl; eauto |].
    destruct (negb (truthy (js_of (Some id)))); [eauto |].
    simpl. rewrite Hv. simpl. eauto.
Qed.

(** ** The video router *)

Lemma serve_cons r rest continues method path :
  serve (r :: rest) continues method path
  = match route_matches r method path with
    | Some params =>
        route_endpoint r ::
          (if continues (route_endpoint r) params
           then serve rest continues method path else [])
    | None => serve rest continues method path
    end.
Proof. reflexivity. Qed.

Lemma serve_cons_not_in r rest continues method path E :
  route_endpoint r <> E ->
  E ∉ serve rest continues method path ->
  E ∉ serve (r :: rest) continues method path.
Proof.
  intros Hr Hrest. simpl.
  destruct (route_matches r method path) as [params |]; [| exact Hrest].
  destruct (continues (route_endpoint r) params).
  - apply not_elem_of_cons. split; [congruence | exact Hrest].
  - apply not_elem_of_cons. split; [congruence | apply not_elem_of_nil].
Qed.

Lemma random_path_matches_find method path params :
  route_matches (mkRoute (Some GET) true [Lit "find"; Lit "random"] GetRandomVideos)
                method path = Some params ->
  exists params',
    route_matches (mkRoute (Some GET) true [Lit "find"; Param "accountId"]
                     GetVideosByAccount) method path = Some params'.
Proof.
  unfold route_matches. simpl.
  destruct (decide (GET = method)); [| discriminate].
  destruct path as [| s1 [| s2 [| s3 rest]]]; simpl; try discriminate.
  - destruct (String.eqb (lower_string s1) _); discriminate.
  - destruct (String.eqb (lower_string s1) _); [| discriminate].
    destruct (String.eqb_spec s2 "") as [-> | Hs2]; [discriminate |].
    destruct (String.eqb (lower_string s2) _); [eauto | discriminate].
  - destruct (String.eqb (lower_string s1) _); [| discriminate].
    destruct (String.eqb (lower_string s2) _); discriminate.
Qed.

(** X20. The route [GET /find/random] can never be served by
    [getRandomVideos]: it is registered after [GET /find/:accountId], which
    matches the same paths, and [getVideosByAccount] never passes control
    on.  Whatever the method and the path, a request reaches
    [getRandomVideos] only if [getVideosByAccount] called a plain [next()];
    [GET /find/random] is answered by [getVideosByAccount] with the account
    id [random]. *)
Theorem random_videos_route_is_shadowed
    (continues : VideoEndpoint -> gmap string string -> bool) :
  (forall params, continues GetVideosByAccount params = false) ->
  (forall method path, GetRandomVideos ∉ serve videoRouter continues method path)
  /\ serve videoRouter continues GET ["find"; "random"] = [GetVideosByAccount]
  /\ route_matches (mkRoute (Some GET) true [Lit "find"; Param "accountId"]
                      GetVideosByAccount) GET ["find"; "random"]
     = Some {["accountId" := "random"]}.
Proof.
  intros Hstop. split; [| split].
  - intros method path. unfold videoRouter.
    do 4 (apply serve_cons_not_in; [discriminate |]).
    rewrite serve_cons.
    destruct (route_matches (mkRoute (Some GET) true [Lit "find"; Param "accountId"]
                               GetVideosByAccount) method path) as [q |] eqn:H5.
    + cbn [route_endpoint]. rewrite Hstop.
      apply not_elem_of_cons. split; [discriminate | apply not_elem_of_nil].
    + rewrite serve_cons.
      destruct (route_matches (mkRoute (Some GET) true [Lit "find"; Lit "random"]
                                 GetRandomVideos) method path) as [p |] eqn:H6.
      * destruct (random_path_matches_find method path p H6) as [q Hq]. congruence.
      * do 2 (apply serve_cons_not_in; [discriminate |]). apply not_elem_of_nil.
  - unfold videoRouter, serve, route_matches. simpl. now rewrite Hstop.
  - reflexivity.
Qed.

Lemma random_videos_route_is_shadowed_witness :
  serve videoRouter (fun _ _ => false) GET ["find"; "random"] = [GetVideosByAccount].
Proof.
  apply (random_videos_route_is_shadowed (fun _ _ => false)).
  reflexivity.
Defined.

(** ** The token in the [Authorization] header *)

Lemma split_without_separator (sep : ascii) (s : string) :
  has_char sep s = false -> split sep s = [s].
Proof.
  induction s as [| c s IH]; [reflexivity |].
  simpl. intros H. apply orb_false_iff in H as [Hc Hs].
  rewrite Hc, (IH Hs). reflexivity.
Qed.

Lemma prefix_append (p s : string) : String.prefix p (p ++ s) = true.
Proof.
  induction p as [| c p IH]; [now destruct s |].
  rewrite append_cons. simpl. destruct (ascii_dec c c); [exact IH | congruence].
Qed.

(** X15. For a header of the form [Bearer: <token>], with the colon and one
    space and a token that holds no space, the two header helpers agree:
    [isTokenIncluded] reports the token and [_getAccessTokenFromHeader]
    returns exactly it. *)
Theorem bearer_colon_header_round_trip (token : string) :
  has_char " " token = false ->
  JWTLibHeader.isTokenIncluded (Some ("Bearer: " ++ token)) = true
  /\ JWTLibHeader._getAccessTokenFromHeader (Some ("Bearer: " ++ token)) = Some token.
Proof.
  intros Hns. split.
  - unfold JWTLibHeader.isTokenIncluded.
    change ("Bearer: " ++ token) with ("Bearer:" ++ String " " token).
    apply prefix_append.
  - unfold JWTLibHeader._getAccessTokenFromHeader.
    change ("Bearer: " ++ token)
      with (String "B" (String "e" (String "a" (String "r" (String "e" (String "r"
             (String ":" (String " " token)))))))).
    simpl. now rewrite (split_without_separator " " token Hns).
Qed.

Lemma bearer_colon_header_round_trip_witness :
  JWTLibHeader._getAccessTokenFromHeader (Some ("Bearer: " ++ "abc.def")) = Some "abc.def".
Proof.
  apply (bearer_colon_header_round_trip "abc.def"). reflexivity.
Defined.

(** X16. On the two common spellings the header helpers disagree.  For the
    standard [Bearer <token>] the token can be extracted but
    [isTokenIncluded] says that none is included; for [Bearer:<token>]
    without a space [isTokenIncluded] says that a token is included but
    [_getAccessTokenFromHeader] returns [undefined]. *)
Theorem bearer_helpers_disagree (token : string) :
  JWTLibHeader.isTokenIncluded (Some ("Bearer " ++ token)) = false
  /\ JWTLibHeader.isTokenIncluded (Some ("Bearer:" ++ token)) = true
  /\ (has_char " " token = false ->
      JWTLibHeader._getAccessTokenFromHeader (Some ("Bearer " ++ token)) = Some token
      /\ JWTLibHeader._getAccessTokenFromHeader (Some ("Bearer:" ++ token)) = None).
Proof.
  split; [reflexivity |]. split; [apply prefix_append |].
  intros Hns. unfold JWTLibHeader._getAccessTokenFromHeader. split.
  - change ("Bearer " ++ token)
      with (String "B" (String "e" (String "a" (String "r" (String "e" (String "r"
             (String " " token))))))).
    simpl. now rewrite (split_without_separator " " token Hns).
  - change ("Bearer:" ++ token)
      with (String "B" (String "e" (String "a" (String "r" (String "e" (String "r"
             (String ":" token))))))).
    simpl. now rewrite (split_without_separator " " token Hns).
Qed.

Lemma bearer_helpers_disagree_witness :
  JWTLibHeader._getAccessTokenFromHeader (Some ("Bearer " ++ "abc.def")) = Some "abc.def"
  /\ JWTLibHeader._getAccessTokenFromHeader (Some ("Bearer:" ++ "abc.def")) = None.
Proof.
  apply (bearer_helpers_disagree "abc.def"). reflexivity.
Defined.

(** ** The upload callbacks *)

(** X17. The upload filter accepts an [image] field only as JPEG and a
    [file] field only as MP4, and for an accepted file the stored name is
    [image_<now>.jpg], [image_<now>.jpeg] or [video_<now>.mp4].  For any
    other field name neither callback is answered. *)
Theorem accepted_uploads_and_their_names (now_ms : Z) (file : File) :
  (fileFilter file = Some true ->
     (fieldname file = "image"
      /\ (filename now_ms file = Some (SavedImage ("image_" ++ decimal now_ms ++ ".jpg"))
          \/ filename now_ms file
             = Some (SavedImage ("image_" ++ decimal now_ms ++ ".jpeg"))))
     \/ (fieldname file = "file"
         /\ filename now_ms file = Some (SavedVideo ("video_" ++ decimal now_ms ++ ".mp4"))))
  /\ (fieldname file <> "image" -> fieldname file <> "file" ->
      fileFilter file = None /\ filename now_ms file = None).
Proof.
  unfold fileFilter, filename. split.
  - destruct (String.eqb_spec (fieldname file) "image") as [Hi | Hi].
    + intros [= Hacc]. left. split; [exact Hi |].
      apply orb_true_iff in Hacc as [Hm | Hm]; apply String.eqb_eq in Hm;
        rewrite Hm; [left | right]; reflexivity.
    + destruct (String.eqb_spec (fieldname file) "file") as [Hf | Hf]; [| discriminate].
      intros [= Hacc]. right. split; [exact Hf |].
      apply String.eqb_eq in Hacc. rewrite Hacc. reflexivity.
  - intros Hi Hf.
    destruct (String.eqb_spec (fieldname file) "image"); [contradiction |].
    destruct (String.eqb_spec (fieldname file) "file"); [contradiction |].
    split; reflexivity.
Qed.

Lemma accepted_uploads_and_their_names_witness :
  filename 1700000000000 (mkFile "file" "video/mp4")
  = Some (SavedVideo ("video_" ++ decimal 1700000000000 ++ ".mp4")).
Proof.
  destruct (accepted_uploads_and_their_names 1700000000000 (mkFile "file" "video/mp4"))
    as [Hacc _].
  destruct (Hacc eq_refl) as [[Hi _] | [_ Hname]]; [discriminate Hi | exact Hname].
Defined.

(** ** The further properties at concrete inputs *)


Lemma valid_token_runs_controller_as_its_subject_witness :
  exists resp,
    reply (controller hex24 PutSub
             (set_account bea_token_request (mkClaim id_b "Bea")) two_accounts_db).1
    = Some resp
    /\ dispatch (route sample_mac hex24 sample_env 5000 PutSub)
                bea_token_request two_accounts_db
       = ([resp],
          (controller hex24 PutSub
             (set_account bea_token_request (mkClaim id_b "Bea")) two_accounts_db).2).
Proof.
  apply (valid_token_runs_controller_as_its_subject sample_mac hex24 sample_env
           5000 5000 36000 (mkClaim id_b "Bea") PutSub bea_token_request two_accounts_db).
  - apply lookup_singleton_eq.
  - reflexivity.
Defined.



Lemma ana_request_video : req_params ana_request !! "videoId" = Some id_c.
Proof. reflexivity. Qed.

Lemma ana_request_comment : req_params ana_request !! "commentId" = Some id_c.
Proof. reflexivity. Qed.

Lemma sample_video_owner : sample_video !! "account_id" = Some (VStr id_a).
Proof. apply lookup_insert_eq. Qed.

Lemma sample_comment_owner : sample_comment !! "account_id" = Some (VStr id_a).
Proof. apply lookup_insert_eq. Qed.


Lemma owner_delete_removes_only_the_video_witness :
  videos (deleteSingleVideo hex24 ana_request media_db).2 !! id_c = None
  /\ comments (deleteSingleVideo hex24 ana_request media_db).2 = comments media_db.
Proof.
  destruct (owner_delete_removes_only_the_video hex24 ana_request media_db id_c id_a
              sample_video ana_request_video id_c_well_formed media_db_video
              sample_video_owner eq_refl) as (_ & Hgone & _ & _ & Hcomments & _).
  split; assumption.
Defined.

Lemma owner_delete_removes_only_the_comment_witness :
  comments (deleteComment hex24 ana_request media_db).2 !! id_c = None
  /\ (deleteComment hex24 ana_request (deleteComment hex24 ana_request media_db).2).1
     = Respond (json 200 (BMessage true "Comment couldn't be find.")).
Proof.
  destruct (owner_delete_removes_only_the_comment hex24 ana_request media_db id_c id_a
              sample_comment ana_request_comment id_c_well_formed media_db_comment
              sample_comment_owner eq_refl) as (_ & Hgone & _ & _ & _ & Hagain).
  split; assumption.
Defined.

Lemma account_delete_does_not_cascade_witness :
  accounts (deleteSingleAccount ana_request media_db).2 = delete id_a (accounts media_db)
  /\ videos (deleteSingleAccount ana_request media_db).2 = videos media_db
  /\ deleteSingleAccount bea_request media_db
     = (Next (Some (CustomError "You cannot delete this channel." 500)), media_db).
Proof.
  assert (Hne : id_a <> "") by discriminate.
  destruct (account_delete_does_not_cascade ana_request media_db id_a
              (lookup_insert_eq _ _ _) Hne) as [Hown _].
  destruct (account_delete_does_not_cascade bea_request media_db id_a
              bea_request_account Hne) as [_ Hother].
  destruct (Hown eq_refl) as (_ & Ha & Hv & _).
  split; [exact Ha |]. split; [exact Hv |].
  apply Hother. discriminate.
Defined.


Lemma malformed_id_rejected_before_database_witness :
  exists m1 m2,
    updateSingleVideo hex24 (request_of id_a "videoId" "not-an-id" ∅) media_db
      = (Next (Some (CustomError m1 400)), media_db)
    /\ deleteSingleVideo hex24 (request_of id_a "videoId" "not-an-id" ∅) media_db
       = (Next (Some (CustomError m2 400)), media_db).
Proof.
  apply (malformed_id_rejected_before_database hex24
           (request_of id_a "videoId" "not-an-id" ∅) media_db).
  intros id Hid.
  rewrite request_of_param in Hid. injection Hid as <-. right. reflexivity.
Defined.



Lemma getSingleVideo_answers_witness :
  (getSingleVideo hex24 bea_request media_db).1
  = Respond (json 200 (BData true (Some sample_video))).
Proof.
  destruct (getSingleVideo_answers hex24 bea_request media_db) as [Hfound _].
  rewrite (Hfound id_c bea_request_video id_c_well_formed).
  now rewrite media_db_video.
Defined.

Lemma getComments_lists_the_comments_of_the_video_witness :
  exists data, getComments hex24 bea_request media_db = (RespondList 200 true data, media_db).
Proof.
  destruct (getComments_lists_the_comments_of_the_video hex24 bea_request media_db)
    as [Hlist _].
  destruct (Hlist id_c bea_request_video id_c_well_formed) as (data & Hrun & _).
  exists data. exact Hrun.
Defined.

